(** * anacostia/cli.py: entrypoint resolution, change detection, reloader

    A shallow embedding of [src/package/anacostia/cli.py].  The Python
    functions keep their names.  What lies outside the file (the import
    system, the working directory, the filesystem, the child process, the
    operator's interrupt) is an explicit environment: a [Host] record for
    the functions the interpreter offers, a directory listing [FS] for the
    tree being watched, and a list of [Reply] values for what the operating
    system answers at each blocking call of the reloader loop.

    Output written with [print] is not modelled. *)

From Stdlib Require Import ZArith Ascii String.
From stdpp Require Import gmap strings list fin_maps.

Local Open Scope string_scope.

(** ** Python values the program touches *)

(** Exceptions that can travel through the program.  [SystemExit] carries
    either a message ([raise SystemExit("...")]) or an integer status
    ([sys.exit(code)]). *)
Inductive Exn :=
| SystemExit (arg : string + Z)
| ValueError (msg : string)
| ImportError (msg : string)
| AttributeError (msg : string)
| TypeError (msg : string)
| OSError (msg : string)
| KeyboardInterrupt.

(** The three ways a Python call can end. *)
Inductive Outcome (A : Type) :=
| Return (a : A)
| Raise (e : Exn)
| Hang.
Arguments Return {A} a.
Arguments Raise {A} e.
Arguments Hang {A}.

(** An attribute value: whether [callable(obj)] holds, and what [obj()]
    does when it is invoked with no argument. *)
Record PyObj := {
  obj_id : string;
  obj_callable : bool;
  obj_call : Outcome unit
}.

(** A path is the list of its components below the filesystem root;
    [Path] objects and their string form are identified. *)
Abbreviation Path := (list string).

(** A loaded module: its [__file__] (absent for a built-in module or a
    namespace package) and its namespace. *)
Record Module := {
  mod_name : string;
  mod_file : option Path;
  mod_attrs : gmap string PyObj
}.

(** Process-wide interpreter state: [sys.path], [sys.modules], and the
    history of entrypoint invocations made in this process. *)
Record Interp := {
  sys_path : list Path;
  sys_modules : gmap string Module;
  calls : list PyObj
}.

(** What the interpreter and the operating system offer to the program. *)
Record Host := {
  (** [importlib.import_module(name)]: reads and updates the interpreter. *)
  import_module : string → Interp → Outcome Module * Interp;
  (** [Path.cwd()] *)
  getcwd : Outcome Path;
  (** [Path.is_dir()] *)
  is_dir : Path → bool;
  (** [Path.resolve()] *)
  resolve : Path → Path;
  (** [os.environ] *)
  environ : gmap string string;
  (** [sys.executable] *)
  executable : string
}.

(** ** A state and exception monad for code running in the interpreter *)

Definition Py (A : Type) : Type := Interp → Outcome A * Interp.

Definition ret {A} (a : A) : Py A := λ st, (Return a, st).
Definition raise {A} (e : Exn) : Py A := λ st, (Raise e, st).
Definition lift {A} (o : Outcome A) : Py A := λ st, (o, st).

Definition bind {A B} (m : Py A) (k : A → Py B) : Py B :=
  λ st, match m st with
        | (Return a, st') => k a st'
        | (Raise e, st') => (Raise e, st')
        | (Hang, st') => (Hang, st')
        end.

(** [try: m  except <handler>: ...]: the handler decides, per exception,
    whether it catches ([Some]) or lets the exception pass ([None]). *)
Definition try_except {A} (m : Py A) (handler : Exn → option (Py A)) : Py A :=
  λ st, match m st with
        | (Raise e, st') =>
            match handler e with
            | Some h => h st'
            | None => (Raise e, st')
            end
        | r => r
        end.

#[export] Instance Py_ret : MRet Py := @ret.
#[export] Instance Py_bind : MBind Py := λ A B k m, bind m k.

(** ** String helpers *)

(** [s.split(":", 1)]: a one-element list when there is no separator,
    otherwise the text before the first separator and the rest. *)
Fixpoint partition_sep (sep : ascii) (s : string) : option (string * string) :=
  match s with
  | EmptyString => None
  | String c rest =>
      if Ascii.eqb c sep then Some (EmptyString, rest)
      else match partition_sep sep rest with
           | Some (a, b) => Some (String c a, b)
           | None => None
           end
  end.

Definition split1 (sep : ascii) (s : string) : list string :=
  match partition_sep sep s with
  | Some (a, b) => [a; b]
  | None => [s]
  end.

(** [a, b = parts]: tuple unpacking of a list into two names. *)
Definition unpack2 (parts : list string) : Outcome (string * string) :=
  match parts with
  | [a; b] => Return (a, b)
  | [] | [_] => Raise (ValueError "not enough values to unpack (expected 2, got 1)")
  | _ => Raise (ValueError "too many values to unpack (expected 2)")
  end.

Definition has_sep (sep : ascii) (s : string) : bool :=
  match partition_sep sep s with Some _ => true | None => false end.

(** ** [_run_app] (lines 17-49) *)

(** The four messages the function exits with, one per resolution step. *)
Definition InvalidLocatorFormat (app_path : string) : Exn :=
  SystemExit (inl ("Invalid --app value '" ++ app_path
    ++ "'. Expected format 'module:attr', e.g. 'myproj.main:run'.")).

Definition UnitNotFound (module_name exc : string) : Exn :=
  SystemExit (inl ("Could not import module '" ++ module_name
    ++ "' for --app: " ++ exc)).

Definition AttributeNotFound (module_name attr_name app_path : string) : Exn :=
  SystemExit (inl ("Module '" ++ module_name ++ "' has no attribute '"
    ++ attr_name ++ "' (from --app '" ++ app_path ++ "').")).

Definition NotInvocable (module_name attr_name app_path : string) : Exn :=
  SystemExit (inl ("Attribute '" ++ attr_name ++ "' in module '" ++ module_name
    ++ "' is not callable (from --app '" ++ app_path ++ "').")).

(** [getattr(module, attr_name)] *)
Definition getattr (m : Module) (attr_name : string) : Outcome PyObj :=
  match mod_attrs m !! attr_name with
  | Some o => Return o
  | None => Raise (AttributeError ("module '" ++ mod_name m
                     ++ "' has no attribute '" ++ attr_name ++ "'"))
  end.

(** [app_path.split(":", 1)] where [app_path] is whatever argparse left in
    [args.app]: a string, or [None] when [--app] was not given (the parser
    declares no default). *)
Definition method_split (app_path : option string) : Outcome (list string) :=
  match app_path with
  | Some s => Return (split1 ":" s)
  | None => Raise (AttributeError "'NoneType' object has no attribute 'split'")
  end.

(** The value interpolated into a message by an f-string. *)
Definition fmt (app_path : option string) : string :=
  match app_path with Some s => s | None => "None" end.

(** Lines 24-46: everything [_run_app] does before it calls the target. *)
Definition resolve_target (h : Host) (app_path : option string) : Py PyObj :=
  '(module_name, attr_name) ←
     try_except (parts ← lift (method_split app_path); lift (unpack2 parts))
       (λ e, match e with
             | ValueError _ => Some (raise (InvalidLocatorFormat (fmt app_path)))
             | _ => None
             end) ;
  module ←
     try_except (import_module h module_name)
       (λ e, match e with
             | ImportError exc => Some (raise (UnitNotFound module_name exc))
             | _ => None
             end) ;
  target ←
     try_except (lift (getattr module attr_name))
       (λ e, match e with
             | AttributeError _ =>
                 Some (raise (AttributeNotFound module_name attr_name
                               (fmt app_path)))
             | _ => None
             end) ;
  if obj_callable target then ret target
  else raise (NotInvocable module_name attr_name (fmt app_path)).

(** Line 49: [target()], recorded in the invocation history. *)
Definition invoke (target : PyObj) : Py unit :=
  λ st, (obj_call target,
         {| sys_path := sys_path st; sys_modules := sys_modules st;
            calls := calls st ++ [target] |}).

Definition _run_app (h : Host) (app_path : option string) : Py unit :=
  target ← resolve_target h app_path;
  invoke target.

(** ** The watched tree and its snapshots (lines 52-60) *)

(** [os.stat_result], of which the program reads [st_mtime] only.  The
    timestamp is compared for equality and nothing else, so it is kept as
    an integer count of clock ticks. *)
Record stat_result := { st_mtime : Z }.

(** The filesystem at one instant: the directory entries in the order a
    recursive walk meets them, each with what [stat] answers for it. *)
Abbreviation FS := (list (Path * Outcome stat_result)).

(** A snapshot: the dict built at line 60. *)
Abbreviation Snapshot := (gmap Path Z).

(** [s.endswith(suffix)] *)
Definition endswith (s suffix : string) : bool :=
  let n := String.length s in
  let k := String.length suffix in
  (k <=? n)%nat && String.eqb (substring (n - k) k s) suffix.

(** [fnmatch(name, "*.py")], case-sensitive as on POSIX. *)
Definition fnmatch_py (name : string) : bool := endswith name ".py".

(** The part of [p] below [root], when [p] lies in the tree of [root]. *)
Fixpoint relative_to (root p : Path) : option Path :=
  match root, p with
  | [], _ => Some p
  | r :: root', c :: p' => if String.eqb r c then relative_to root' p' else None
  | _ :: _, [] => None
  end.

(** Whether [root.rglob("*.py")] yields [p]: a proper descendant of [root]
    whose last component matches the pattern. *)
Definition rglob_match (root p : Path) : bool :=
  match relative_to root p with
  | Some rel =>
      match last rel with
      | Some name => fnmatch_py name
      | None => false
      end
  | None => false
  end.

Definition _iter_python_files (root : Path) (fs : FS) : list Path :=
  List.filter (rglob_match root) (fs.*1).

(** [path.stat()] *)
Fixpoint stat (fs : FS) (path : Path) : Outcome stat_result :=
  match fs with
  | [] => Raise (OSError "[Errno 2] No such file or directory")
  | (q, r) :: fs' => if decide (q = path) then r else stat fs' path
  end.

(** The dict comprehension [{path: path.stat().st_mtime for path in paths}]:
    entries are added in iteration order and the first failing [stat]
    leaves the comprehension. *)
Fixpoint comprehension (fs : FS) (paths : list Path) (acc : Snapshot)
  : Outcome Snapshot :=
  match paths with
  | [] => Return acc
  | path :: rest =>
      match stat fs path with
      | Return st => comprehension fs rest (<[path := st_mtime st]> acc)
      | Raise e => Raise e
      | Hang => Hang
      end
  end.

Definition _snapshot_mtimes (root : Path) (fs : FS) : Outcome Snapshot :=
  comprehension fs (_iter_python_files root fs) ∅.

(** Replacing what [stat] answers for one path: a write to the file, a
    [touch], a permission change. *)
Definition set_stat (p : Path) (r : Outcome stat_result) (fs : FS) : FS :=
  (λ e : Path * Outcome stat_result, if decide (e.1 = p) then (e.1, r) else e) <$> fs.

Definition touch (p : Path) (t : Z) (fs : FS) : FS :=
  set_stat p (Return {| st_mtime := t |}) fs.

(** ** [_resolve_app_directory] (lines 63-75) *)

(** [sys.path.insert(0, entry)] *)
Definition sys_path_insert0 (entry : Path) : Py unit :=
  λ st, (Return tt,
         {| sys_path := entry :: sys_path st; sys_modules := sys_modules st;
            calls := calls st |}).

(** [inspect.getfile(module)]: a module without [__file__] is reported as
    built-in with a [TypeError]. *)
Definition inspect_getfile (m : Module) : Outcome Path :=
  match mod_file m with
  | Some f => Return f
  | None =>
      Raise (TypeError ("<module '" ++ mod_name m
                        ++ "' (built-in)> is a built-in module"))
  end.

(** [Path.parent] *)
Definition parent (p : Path) : Path := removelast p.

Definition _resolve_app_directory (h : Host) (app_path : option string) : Py Path :=
  repo_dir ← lift (getcwd h);
  (if is_dir h repo_dir then sys_path_insert0 repo_dir else ret tt) ;;
  '(module_name, _) ← (parts ← lift (method_split app_path); lift (unpack2 parts));
  module ← import_module h module_name;
  module_file ← lift (inspect_getfile module);
  ret (parent (resolve h module_file)).

(** ** The reloader loop: [_run_with_reloader] (lines 78-134) *)

Definition _CHILD_ENV_VAR : string := "ANACOSTIA_RELOADER_CHILD".

(** The namespace argparse returns. *)
Record Args := {
  reload : bool;
  no_reload : bool;
  app : option string
}.

Abbreviation Pid := nat.

(** The calls through which the loop reaches the outside world. *)
Inductive Action :=
| Popen (cmd : list string) (env : gmap string string)
| Poll (proc : Pid)
| Sleep (seconds : Z)
| Scan (root : Path)
| Terminate (proc : Pid)
| Wait (proc : Pid) (timeout : Z)
| Kill (proc : Pid).

(** What the outside world answers.  [Signalled] is [terminate] or [kill]
    returning: the signal was sent to a child still running, or the child
    had already ended and nothing was sent.
    [Exited] is [wait] returning the exit code within the timeout.
    [Failed e] is the call raising [e]; [Failed KeyboardInterrupt] is the
    operator's interrupt arriving while the call is in progress. *)
Inductive Reply :=
| Spawned (pid : Pid)
| Polled (return_code : option Z)
| Slept
| Tree (fs : FS)
| Signalled
| Exited (return_code : Z)
| TimeoutExpired
| Failed (e : Exn).

Abbreviation Event := (Action * Reply)%type.

(** The local variables that live across iterations. *)
Record Locals := {
  package_root : Path;
  mtimes : Snapshot;
  app_path : string
}.

(** Control points of the function: the call the supervisor is about to
    make, or the way the function has ended. *)
Inductive Sup :=
| Spawning (v : Locals)                       (* line 103 *)
| Polling (v : Locals) (proc : Pid)           (* line 108 *)
| Sleeping (v : Locals) (proc : Pid)          (* line 113 *)
| Scanning (v : Locals) (proc : Pid)          (* line 116 *)
| Restart_terminate (v : Locals) (proc : Pid) (* line 121 *)
| Restart_wait (v : Locals) (proc : Pid)      (* line 123 *)
| Restart_kill (v : Locals) (proc : Pid)      (* line 125 *)
| Stop_terminate (proc : Pid)                 (* line 129 *)
| Stop_wait (proc : Pid)                      (* line 131 *)
| Stop_kill (proc : Pid)                      (* line 133 *)
| Returned (code : Z)                         (* lines 111 and 134 *)
| Uncaught (e : Exn)
| Stuck.

Definition child_cmd (h : Host) (a : string) : list string :=
  [executable h; "-m"; "anacostia"; "--app"; a].

Definition child_env (h : Host) : gmap string string :=
  <[_CHILD_ENV_VAR := "1"]> (environ h).

Definition pending (h : Host) (s : Sup) : option Action :=
  match s with
  | Spawning v => Some (Popen (child_cmd h (app_path v)) (child_env h))
  | Polling _ proc => Some (Poll proc)
  | Sleeping _ _ => Some (Sleep 1)
  | Scanning v _ => Some (Scan (package_root v))
  | Restart_terminate _ proc | Stop_terminate proc => Some (Terminate proc)
  | Restart_wait _ proc | Stop_wait proc => Some (Wait proc 5)
  | Restart_kill _ proc | Stop_kill proc => Some (Kill proc)
  | Returned _ | Uncaught _ | Stuck => None
  end.

(** An exception raised inside the [try] of lines 105-126: the handler of
    line 127 takes [KeyboardInterrupt], anything else leaves the function. *)
Definition in_try (e : Exn) (proc : Pid) : Sup :=
  match e with
  | KeyboardInterrupt => Stop_terminate proc
  | _ => Uncaught e
  end.

(** Lines 116-126 once the fresh snapshot has been computed. *)
Definition compare (v : Locals) (proc : Pid) (new_mtimes : Outcome Snapshot) : Sup :=
  match new_mtimes with
  | Return new =>
      if decide (new ≠ mtimes v)
      then Restart_terminate
             {| package_root := package_root v; mtimes := new;
                app_path := app_path v |} proc
      else Polling v proc
  | Raise e => in_try e proc
  | Hang => Stuck
  end.

Definition step (s : Sup) (r : Reply) : option Sup :=
  match s, r with
  | Spawning v, Spawned pid => Some (Polling v pid)
  | Spawning _, Failed e => Some (Uncaught e)
  | Polling _ _, Polled (Some return_code) => Some (Returned return_code)
  | Polling v proc, Polled None => Some (Sleeping v proc)
  | Sleeping v proc, Slept => Some (Scanning v proc)
  | Scanning v proc, Tree fs =>
      Some (compare v proc (_snapshot_mtimes (package_root v) fs))
  | Restart_terminate v proc, Signalled => Some (Restart_wait v proc)
  | Restart_wait v _, Exited _ => Some (Spawning v)
  | Restart_wait v proc, TimeoutExpired => Some (Restart_kill v proc)
  | Restart_kill v _, Signalled => Some (Spawning v)
  | (Polling _ proc | Sleeping _ proc | Scanning _ proc
     | Restart_terminate _ proc | Restart_wait _ proc | Restart_kill _ proc),
    Failed e => Some (in_try e proc)
  | Stop_terminate proc, Signalled => Some (Stop_wait proc)
  | Stop_wait _, Exited _ => Some (Returned 0)
  | Stop_wait proc, TimeoutExpired => Some (Stop_kill proc)
  | Stop_kill _, Signalled => Some (Returned 0)
  | (Stop_terminate _ | Stop_wait _ | Stop_kill _), Failed e => Some (Uncaught e)
  | _, _ => None
  end.

(** Running the loop against a script of replies.  The result is [None]
    when a reply does not answer the call that is pending; a loop that has
    ended reads no further reply. *)
Fixpoint run (h : Host) (s : Sup) (script : list Reply) : option (list Event * Sup) :=
  match pending h s, script with
  | None, _ | _, [] => Some ([], s)
  | Some a, r :: rest =>
      s' ← step s r;
      '(tr, s'') ← run h s' rest;
      Some ((a, r) :: tr, s'')
  end.

(** Lines 83-87, then the loop.  [fs0] is the tree at the time of the
    initial snapshot.  The test of [args.no_reload] at line 97 guards a
    [pass] and is left out. *)
Definition _run_with_reloader (h : Host) (args : Args) (fs0 : FS)
    (script : list Reply) (st : Interp) : option (list Event * Sup) * Interp :=
  match _resolve_app_directory h (app args) st with
  | (Return root, st') =>
      match _snapshot_mtimes root fs0 with
      | Return m =>
          match app args with
          | Some a =>
              (run h (Spawning {| package_root := root; mtimes := m;
                                  app_path := a |}) script, st')
          | None =>
              (Some ([], Uncaught (TypeError
                 "sequence item 4: expected str instance, NoneType found")), st')
          end
      | Raise e => (Some ([], Uncaught e), st')
      | Hang => (Some ([], Stuck), st')
      end
  | (Raise e, st') => (Some ([], Uncaught e), st')
  | (Hang, st') => (Some ([], Stuck), st')
  end.

(** ** [main] (lines 137-177) *)

(** How the process, or the part of it that was observed, ends. *)
Inductive Ending :=
| Exit (status : Z)
| Dies (e : Exn)
| Blocked
| Running (s : Sup).

Record Execution := {
  events : list Event;
  ending : Ending;
  final : Interp
}.

(** [sys.exit(code)] with an integer: the status the parent of the process
    sees is the low byte. *)
Definition sys_exit (code : Z) : Ending := Exit (code mod 256).

(** Lines 173-174: [sys.exit] on the value the reloader returned; an
    exception of the reloader leaves [main] as it is; otherwise the loop
    has not ended within the replies observed. *)
Definition ending_of (s : Sup) : Ending :=
  match s with
  | Returned exit_code => sys_exit exit_code
  | Uncaught e => Dies e
  | Stuck => Blocked
  | _ => Running s
  end.

(** A call made by [main] whose result [main] returns or lets propagate. *)
Definition finish (r : Outcome unit * Interp) : Execution :=
  {| events := [];
     ending := match r.1 with
               | Return _ => Exit 0
               | Raise e => Dies e
               | Hang => Blocked
               end;
     final := r.2 |}.

Definition main (h : Host) (args : Args) (fs0 : FS) (script : list Reply)
    (st : Interp) : option Execution :=
  if decide (environ h !! _CHILD_ENV_VAR = Some "1") then
    Some (finish (_run_app h (app args) st))
  else if reload args && negb (no_reload args) then
    match _run_with_reloader h args fs0 script st with
    | (Some (tr, s), st') =>
        Some {| events := tr; ending := ending_of s; final := st' |}
    | (None, _) => None
    end
  else
    Some (finish (_run_app h (app args) st)).

(** ** A reference import system

    [Host] leaves [import_module] open.  The importer below follows the
    import protocol for a top-level module name: an empty name is refused
    with [ValueError], a relative name (one that starts with a dot) with
    [TypeError], since no package is given; a module already in
    [sys.modules] is returned as it is, then the built-in importer is
    asked, then each entry of [sys.path] in order; a module that is found
    is stored in [sys.modules]; a name no finder knows raises
    [ModuleNotFoundError] (an [ImportError]).  A dotted name is looked up
    as one name: the parent packages that a real import loads on the way
    are not part of this importer. *)
Record Site := {
  builtin_modules : gmap string Module;
  found_in : Path → string → option Module
}.

Fixpoint find_on_path (site : Site) (name : string) (path : list Path)
  : option Module :=
  match path with
  | [] => None
  | entry :: rest =>
      match found_in site entry name with
      | Some m => Some m
      | None => find_on_path site name rest
      end
  end.

Definition load (name : string) (m : Module) : Py Module :=
  λ st, (Return m,
         {| sys_path := sys_path st;
            sys_modules := <[name := m]> (sys_modules st);
            calls := calls st |}).

Definition is_relative (name : string) : bool :=
  match name with
  | String "."%char _ => true
  | _ => false
  end.

Definition path_import (site : Site) (name : string) : Py Module :=
  λ st,
    if decide (name = "") then (Raise (ValueError "Empty module name"), st)
    else if is_relative name then
      (Raise (TypeError ("the 'package' argument is required to perform a "
                         ++ "relative import for '" ++ name ++ "'")), st)
    else match sys_modules st !! name with
         | Some m => (Return m, st)
         | None =>
             match builtin_modules site !! name with
             | Some m => load name m st
             | None =>
                 match find_on_path site name (sys_path st) with
                 | Some m => load name m st
                 | None =>
                     (Raise (ImportError ("No module named '" ++ name ++ "'")), st)
                 end
             end
         end.

(** A small installation used to run the definitions: a project directory
    [/srv/proj] holding [app.py] with a callable [run] and a constant
    [VERSION], and the built-in module [sys]. *)
Module Demo.

Definition run_obj : PyObj :=
  {| obj_id := "app.run"; obj_callable := true; obj_call := Return tt |}.

Definition version_obj : PyObj :=
  {| obj_id := "app.VERSION"; obj_callable := false;
     obj_call := Raise (TypeError "'str' object is not callable") |}.

Definition proj : Path := ["srv"; "proj"].
Definition app_py : Path := ["srv"; "proj"; "app.py"].
Definition notes_txt : Path := ["srv"; "proj"; "notes.txt"].
Definition util_py : Path := ["srv"; "proj"; "pkg"; "util.py"].

Definition app_module : Module :=
  {| mod_name := "app"; mod_file := Some app_py;
     mod_attrs := <["run" := run_obj]> (<["VERSION" := version_obj]> ∅) |}.

Definition sys_module : Module :=
  {| mod_name := "sys"; mod_file := None; mod_attrs := ∅ |}.

Definition site : Site :=
  {| builtin_modules := <["sys" := sys_module]> ∅;
     found_in := λ entry name,
       if decide (entry = proj ∧ name = "app") then Some app_module else None |}.

Definition host : Host :=
  {| import_module := path_import site;
     getcwd := Return proj;
     is_dir := λ _, true;
     resolve := λ p, p;
     environ := ∅;
     executable := "/usr/bin/python3" |}.

(** The interpreter at start-up, the project directory on [sys.path]. *)
Definition interp : Interp :=
  {| sys_path := [proj; ["usr"; "lib"; "python3"]];
     sys_modules := ∅; calls := [] |}.

(** The watched tree: two sources and a text file. *)
Definition tree : FS :=
  [ (app_py, Return {| st_mtime := 100 |});
    (notes_txt, Return {| st_mtime := 100 |});
    (util_py, Return {| st_mtime := 90 |}) ].

Definition args_reload : Args :=
  {| reload := true; no_reload := false; app := Some "app:run" |}.

End Demo.

(** ** Notions the properties are stated with *)

(** The timestamp a snapshot records for a path. *)
Definition mtime_of (fs : FS) (q : Path) : option Z :=
  match stat fs q with
  | Return st => Some (st_mtime st)
  | _ => None
  end.

(** Extending an outcome of [run] with the events that came before. *)
Definition after (tr : list Event) (o : option (list Event * Sup))
  : option (list Event * Sup) :=
  match o with
  | Some (tr', s') => Some ((tr ++ tr')%list, s')
  | None => None
  end.

(** The children started so far. *)
Fixpoint spawns (tr : list Event) : list Pid :=
  match tr with
  | [] => []
  | (Popen _ _, Spawned pid) :: tr' => pid :: spawns tr'
  | _ :: tr' => spawns tr'
  end.

(** The children the supervisor has started and whose termination it has
    not observed: a child leaves the list when [poll] or [wait] returns
    its exit code.  [terminate] and [kill] only send a signal. *)
Fixpoint unreaped_from (live : list Pid) (tr : list Event) : list Pid :=
  match tr with
  | [] => live
  | (Popen _ _, Spawned pid) :: tr' => unreaped_from (live ++ [pid]) tr'
  | (Poll proc, Polled (Some _)) :: tr'
  | (Wait proc _, Exited _) :: tr' =>
      unreaped_from (List.filter (λ p, negb (Nat.eqb p proc)) live) tr'
  | _ :: tr' => unreaped_from live tr'
  end.

Definition unreaped (tr : list Event) : list Pid := unreaped_from [] tr.

(** What the list of children not reaped should be at each control
    point, if every child were waited for before the next one is started.
    The state after a timed-out wait of a restart is kept out: it is the
    one from which the loop goes on to the next child without waiting. *)
Definition tidy (s : Sup) (live : list Pid) : Prop :=
  match s with
  | Spawning _ => live = []
  | Polling _ p | Sleeping _ p | Scanning _ p
  | Restart_terminate _ p | Restart_wait _ p
  | Stop_terminate p | Stop_wait p | Stop_kill p => live = [p]
  | Restart_kill _ _ => False
  | Returned _ | Uncaught _ | Stuck => (length live ≤ 1)%nat
  end.

(** The states of the polling iteration (lines 108-117), with the child
    they hold. *)
Definition watching (s : Sup) : option Pid :=
  match s with
  | Polling _ proc | Sleeping _ proc | Scanning _ proc => Some proc
  | _ => None
  end.

(** A tree in which one watched file cannot be examined. *)
Definition locked_tree : FS :=
  [ (Demo.app_py, Return {| st_mtime := 100 |});
    (Demo.util_py, Raise (OSError "[Errno 13] Permission denied")) ].

(** The demonstration run: the supervisor of [/srv/proj] with its first
    child started. *)
Module DemoRun.

Definition snapshot0 : Snapshot :=
  <[Demo.util_py := 90%Z]> (<[Demo.app_py := 100%Z]> ∅).

Definition locals0 : Locals :=
  {| package_root := Demo.proj; mtimes := snapshot0; app_path := "app:run" |}.

Definition interp1 : Interp :=
  {| sys_path := Demo.proj :: sys_path Demo.interp;
     sys_modules := <["app" := Demo.app_module]> ∅;
     calls := [] |}.

Definition popen : Action :=
  Popen (child_cmd Demo.host "app:run") (child_env Demo.host).

(** The tree after [app.py] has been saved again. *)
Definition tree1 : FS := touch Demo.app_py 101 Demo.tree.

Definition locals1 : Locals :=
  {| package_root := Demo.proj;
     mtimes := <[Demo.app_py := 101%Z]> snapshot0;
     app_path := "app:run" |}.

End DemoRun.

(** ** Changes to the watched tree *)


(** The listing with one more entry, met last by the walk. *)
Definition add_entry (p : Path) (st : stat_result) (fs : FS) : FS :=
  (fs ++ [(p, Return st)])%list.

(** The directory [d] modified at time [t]: what [stat] answers for it,
    when it answers, carries the new time. *)
Definition set_mtime (d : Path) (t : Z) (fs : FS) : FS :=
  (λ e : Path * Outcome stat_result,
     if decide (e.1 = d)
     then (e.1, match e.2 with
                | Return _ => Return {| st_mtime := t |}
                | o => o
                end)
     else e) <$> fs.


(** Creating the file [p] at time [t], with [st] as what [stat] answers
    for it: a new entry, and the directory that holds it is modified. *)
Definition creat (p : Path) (st : stat_result) (t : Z) (fs : FS) : FS :=
  add_entry p st (set_mtime (parent p) t fs).

(** ** Scripts of the reloader loop *)

(** The replies of [n] iterations of lines 106-117 in which the child is
    alive and the tree is [fs]. *)
Fixpoint quiet (n : nat) (fs : FS) : list Reply :=
  match n with
  | O => []
  | S n' => (Polled None :: Slept :: Tree fs :: quiet n' fs)%list
  end.

(** The events of those iterations for child [proc] under [root]. *)
Fixpoint quiet_events (n : nat) (root : Path) (proc : Pid) (fs : FS)
  : list Event :=
  match n with
  | O => []
  | S n' => ((Poll proc, Polled None) :: (Sleep 1, Slept)
             :: (Scan root, Tree fs) :: quiet_events n' root proc fs)%list
  end.

(** The signals sent to children in a trace. *)
Fixpoint signals (tr : list Event) : list Action :=
  match tr with
  | [] => []
  | (Terminate proc, _) :: tr' => Terminate proc :: signals tr'
  | (Kill proc, _) :: tr' => Kill proc :: signals tr'
  | _ :: tr' => signals tr'
  end.

(** The process a supervisor starts: the same host, with the environment
    that line 103 passes to [Popen]. *)
Definition child_host (h : Host) : Host :=
  {| import_module := import_module h;
     getcwd := getcwd h;
     is_dir := is_dir h;
     resolve := resolve h;
     environ := child_env h;
     executable := executable h |}.

(** ** myserver/cli.py and myserver/app.py

    The second command of the repository.  Its loop is the text of
    lines 42-84 of [myserver/cli.py]; it watches the directory of its own
    file, starts the child without [--app], and marks it with its own
    environment variable. *)
Module Myserver.

Definition _CHILD_ENV_VAR : string := "MYSERVER_RELOADER_CHILD".

(** *** [run] of myserver/app.py (lines 6-15)

    The loop sleeps two seconds per round inside a [try]; the handler
    takes [KeyboardInterrupt] and the function returns.  The interrupt is
    placed at the sleep, where the loop spends its time.  [None] as
    outcome: the loop has not ended within the replies observed. *)
Fixpoint app_run (script : list Reply)
  : option (list Event * option (Outcome unit)) :=
  match script with
  | [] => Some ([], None)
  | Slept :: rest =>
      '(tr, o) ← app_run rest;
      Some ((Sleep 2, Slept) :: tr, o)
  | Failed KeyboardInterrupt :: _ =>
      Some ([(Sleep 2, Failed KeyboardInterrupt)], Some (Return tt))
  | Failed e :: _ => Some ([(Sleep 2, Failed e)], Some (Raise e))
  | _ => None
  end.

(** *** myserver/cli.py *)

(** [from .app import run]: the name must be in the module. *)
Definition from_import (m : Module) (name : string) : Outcome PyObj :=
  match mod_attrs m !! name with
  | Some o => Return o
  | None => Raise (ImportError ("cannot import name '" ++ name
                     ++ "' from '" ++ mod_name m ++ "'"))
  end.

(** Lines 14-17. *)
Definition _run_app (h : Host) : Py unit :=
  module ← import_module h "myserver.app";
  run ← lift (from_import module "run");
  invoke run.

Definition child_cmd (h : Host) : list string :=
  [executable h; "-m"; "myserver"].

Definition child_env (h : Host) : gmap string string :=
  <[_CHILD_ENV_VAR := "1"]> (environ h).

(** The control points carry the same data as those of the first command
    and the type is reused: [Spawning] is line 53, [Polling] line 58,
    [Sleeping] line 63, [Scanning] line 66, the restart lines 71-75, the
    handler lines 79-83.  The calls and the transitions below are read off
    myserver/cli.py. *)
Definition pending (h : Host) (s : Sup) : option Action :=
  match s with
  | Spawning _ => Some (Popen (child_cmd h) (child_env h))
  | Polling _ proc => Some (Poll proc)
  | Sleeping _ _ => Some (Sleep 1)
  | Scanning v _ => Some (Scan (package_root v))
  | Restart_terminate _ proc | Stop_terminate proc => Some (Terminate proc)
  | Restart_wait _ proc | Stop_wait proc => Some (Wait proc 5)
  | Restart_kill _ proc | Stop_kill proc => Some (Kill proc)
  | Returned _ | Uncaught _ | Stuck => None
  end.

(** An exception raised inside the [try] of lines 55-76: the handler of
    line 77 takes [KeyboardInterrupt]. *)
Definition in_try (e : Exn) (proc : Pid) : Sup :=
  match e with
  | KeyboardInterrupt => Stop_terminate proc
  | _ => Uncaught e
  end.

(** Lines 66-76 once the fresh snapshot has been computed. *)
Definition compare (v : Locals) (proc : Pid) (new_mtimes : Outcome Snapshot)
  : Sup :=
  match new_mtimes with
  | Return new =>
      if decide (new ≠ mtimes v)
      then Restart_terminate
             {| package_root := package_root v; mtimes := new;
                app_path := app_path v |} proc
      else Polling v proc
  | Raise e => in_try e proc
  | Hang => Stuck
  end.

(** Lines 53-84, one call at a time. *)
Definition step (s : Sup) (r : Reply) : option Sup :=
  match s with
  | Spawning v =>
      match r with
      | Spawned pid => Some (Polling v pid)
      | Failed e => Some (Uncaught e)
      | _ => None
      end
  | Polling v proc =>
      match r with
      | Polled (Some return_code) => Some (Returned return_code)
      | Polled None => Some (Sleeping v proc)
      | Failed e => Some (in_try e proc)
      | _ => None
      end
  | Sleeping v proc =>
      match r with
      | Slept => Some (Scanning v proc)
      | Failed e => Some (in_try e proc)
      | _ => None
      end
  | Scanning v proc =>
      match r with
      | Tree fs => Some (compare v proc (_snapshot_mtimes (package_root v) fs))
      | Failed e => Some (in_try e proc)
      | _ => None
      end
  | Restart_terminate v proc =>
      match r with
      | Signalled => Some (Restart_wait v proc)
      | Failed e => Some (in_try e proc)
      | _ => None
      end
  | Restart_wait v proc =>
      match r with
      | Exited _ => Some (Spawning v)
      | TimeoutExpired => Some (Restart_kill v proc)
      | Failed e => Some (in_try e proc)
      | _ => None
      end
  | Restart_kill v proc =>
      match r with
      | Signalled => Some (Spawning v)
      | Failed e => Some (in_try e proc)
      | _ => None
      end
  | Stop_terminate proc =>
      match r with
      | Signalled => Some (Stop_wait proc)
      | Failed e => Some (Uncaught e)
      | _ => None
      end
  | Stop_wait proc =>
      match r with
      | Exited _ => Some (Returned 0)
      | TimeoutExpired => Some (Stop_kill proc)
      | Failed e => Some (Uncaught e)
      | _ => None
      end
  | Stop_kill proc =>
      match r with
      | Signalled => Some (Returned 0)
      | Failed e => Some (Uncaught e)
      | _ => None
      end
  | Returned _ | Uncaught _ | Stuck => None
  end.

Fixpoint run (h : Host) (s : Sup) (script : list Reply)
  : option (list Event * Sup) :=
  match pending h s, script with
  | None, _ | _, [] => Some ([], s)
  | Some a, r :: rest =>
      s' ← step s r;
      '(tr, s'') ← run h s' rest;
      Some ((a, r) :: tr, s'')
  end.

(** Lines 36-40, then the loop.  [file] is [__file__] of cli.py; the
    locals have no locator, the field is left empty. *)
Definition _run_with_reloader (h : Host) (file : Path) (fs0 : FS)
    (script : list Reply) : option (list Event * Sup) :=
  let package_root := parent (resolve h file) in
  match _snapshot_mtimes package_root fs0 with
  | Return m =>
      run h (Spawning {| package_root := package_root; mtimes := m;
                         app_path := "" |}) script
  | Raise e => Some ([], Uncaught e)
  | Hang => Some ([], Stuck)
  end.

(** Lines 87-119. *)
Definition main (h : Host) (file : Path) (args : Args) (fs0 : FS)
    (script : list Reply) (st : Interp) : option Execution :=
  if decide (environ h !! _CHILD_ENV_VAR = Some "1") then
    Some (finish (_run_app h st))
  else if reload args && negb (no_reload args) then
    match _run_with_reloader h file fs0 script with
    | Some (tr, s) => Some {| events := tr; ending := ending_of s; final := st |}
    | None => None
    end
  else
    Some (finish (_run_app h st)).

(** What an event of the first command's loop is in this one. *)
Definition retag (h : Host) (e : Event) : Event :=
  match e.1 with
  | Popen _ _ => (Popen (child_cmd h) (child_env h), e.2)
  | _ => e
  end.

(** A callable standing for [run] of app.py when the world answers its
    sleeps with [script]. *)
Definition run_obj (script : list Reply) : PyObj :=
  {| obj_id := "myserver.app.run"; obj_callable := true;
     obj_call := match app_run script with
                 | Some (_, Some o) => o
                 | _ => Hang
                 end |}.

End Myserver.

(** The states of the restart of lines 119-126, with the child they
    hold. *)
Definition restarting (s : Sup) : option Pid :=
  match s with
  | Restart_terminate _ proc | Restart_wait _ proc | Restart_kill _ proc =>
      Some proc
  | _ => None
  end.

(** An installation of myserver whose [run] is interrupted during its
    third sleep, seen from a process that carries the marker. *)
Module MyserverDemo.

Definition script : list Reply :=
  (replicate 2 Slept ++ Failed KeyboardInterrupt :: [])%list.

Definition app_module : Module :=
  {| mod_name := "myserver.app";
     mod_file := Some ["srv"; "proj"; "myserver"; "app.py"];
     mod_attrs := <["run" := Myserver.run_obj script]> ∅ |}.

Definition site : Site :=
  {| builtin_modules := ∅;
     found_in := λ entry name,
       if decide (entry = Demo.proj ∧ name = "myserver.app")
       then Some app_module else None |}.

Definition host : Host :=
  {| import_module := path_import site;
     getcwd := Return Demo.proj;
     is_dir := λ _, true;
     resolve := λ p, p;
     environ := <[Myserver._CHILD_ENV_VAR := "1"]> ∅;
     executable := "/usr/bin/python3" |}.

Definition cli_py : Path := ["srv"; "proj"; "myserver"; "cli.py"].

(** The interpreter of [Demo] after the application module is loaded. *)
Definition interp1 : Interp :=
  {| sys_path := sys_path Demo.interp;
     sys_modules := <["myserver.app" := app_module]> ∅;
     calls := [] |}.

End MyserverDemo.

(** * Properties *)

(** Unfolding the monad of [Py] down to matches on the results. *)
Ltac py_unfold :=
  unfold _run_app, resolve_target, _resolve_app_directory, invoke,
    sys_path_insert0, mbind, mret, Py_bind, Py_ret, bind, ret, raise,
    try_except, lift, method_split, split1; simpl.

(** ** Snapshots *)

Section snapshots.
Implicit Types (fs : FS) (root p q : Path) (paths : list Path).
Implicit Types (m acc : Snapshot) (r : Outcome stat_result).

Lemma comprehension_Return fs paths acc m :
  comprehension fs paths acc = Return m →
  (∀ q, q ∈ paths → ∃ st, stat fs q = Return st) ∧
  (∀ q, m !! q = if decide (q ∈ paths) then mtime_of fs q else acc !! q).
Proof.
  revert acc. induction paths as [|path rest IH]; intros acc Hc; simpl in Hc.
  - injection Hc as <-. split; [intros q Hq; inversion Hq|].
    intros q. case_decide as Hq; [inversion Hq | done].
  - destruct (stat fs path) as [st| |] eqn:Hst; try discriminate.
    destruct (IH _ Hc) as [Hall Hlook]. split.
    + intros q [->|Hq]%elem_of_cons; eauto.
    + intros q. rewrite Hlook. unfold mtime_of.
      destruct (decide (q ∈ rest)) as [Hin|Hnin].
      * rewrite decide_True; [done | by right].
      * destruct (decide (q = path)) as [->|Hne].
        -- rewrite decide_True by left. by rewrite lookup_insert_eq, Hst.
        -- rewrite decide_False; [by rewrite lookup_insert_ne|].
           by intros [?|?]%elem_of_cons.
Qed.

Lemma comprehension_total fs paths acc :
  (∀ q, q ∈ paths → ∃ st, stat fs q = Return st) →
  ∃ m, comprehension fs paths acc = Return m.
Proof.
  revert acc. induction paths as [|path rest IH]; intros acc Hall; simpl.
  - eauto.
  - destruct (Hall path) as [st ->]; [by left|].
    apply IH. intros q Hq. apply Hall. by right.
Qed.

(** The first path whose [stat] raises ends the comprehension with
    that exception. *)
Lemma comprehension_first_failure fs before path after acc e :
  (∀ q, q ∈ before → ∃ st, stat fs q = Return st) →
  stat fs path = Raise e →
  comprehension fs (before ++ path :: after) acc = Raise e.
Proof.
  revert acc. induction before as [|b before IH]; intros acc Hall Hbad; simpl.
  - by rewrite Hbad.
  - destruct (Hall b) as [st ->]; [by left|].
    apply IH; [|done]. intros q Hq. apply Hall. by right.
Qed.


Lemma elem_of_iter_python_files root fs p :
  p ∈ _iter_python_files root fs ↔ p ∈ fs.*1 ∧ rglob_match root p = true.
Proof.
  unfold _iter_python_files.
  by rewrite !list_elem_of_In, filter_In.
Qed.








Lemma snapshot_Return root fs m :
  _snapshot_mtimes root fs = Return m ↔
  (∀ p, p ∈ _iter_python_files root fs → ∃ st, stat fs p = Return st) ∧
  (∀ p, m !! p =
        if decide (p ∈ _iter_python_files root fs) then mtime_of fs p else None).
Proof.
  unfold _snapshot_mtimes. split.
  - intros Hc. apply comprehension_Return in Hc as [Hall Hlook].
    split; [done|]. intros p. by rewrite Hlook, lookup_empty.
  - intros [Hall Hlook].
    destruct (comprehension_total fs _ ∅ Hall) as [m' Hm'].
    rewrite Hm'. f_equal. apply map_eq. intros p.
    apply comprehension_Return in Hm' as [_ Hlook'].
    by rewrite Hlook, Hlook', lookup_empty.
Qed.

End snapshots.




(** C4, as stated, fails: with one watched file that cannot be examined
    the snapshot does not return; it ends with the error of that file. *)
Lemma snapshot_aborts_counterexample :
  stat locked_tree Demo.app_py = Return {| st_mtime := 100 |}
  ∧ _snapshot_mtimes Demo.proj locked_tree
      = Raise (OSError "[Errno 13] Permission denied")
  ∧ ¬ ∃ m, _snapshot_mtimes Demo.proj locked_tree = Return m.
Proof.
  split; [reflexivity|]. split; [reflexivity|].
  intros [m Hm]. vm_compute in Hm. discriminate.
Qed.

(** C4, amended.  The snapshot returns exactly when [stat] succeeds on
    every file the walk yields, and then it holds every such file with its
    timestamp and nothing else.  A file that cannot be examined is not
    skipped: the snapshot does not return, and the first failure in walk
    order is the exception that leaves [_snapshot_mtimes]. *)
Theorem snapshot_stat_failure_policy (root : Path) (fs : FS) :
  (∀ m : Snapshot,
     _snapshot_mtimes root fs = Return m ↔
     (∀ p, p ∈ _iter_python_files root fs → ∃ st, stat fs p = Return st) ∧
     (∀ p, m !! p = if decide (p ∈ _iter_python_files root fs)
                    then mtime_of fs p else None))
  ∧ (∀ p e, p ∈ _iter_python_files root fs → stat fs p = Raise e →
       ∀ m, _snapshot_mtimes root fs ≠ Return m)
  ∧ (∀ (before : list Path) (p : Path) (after : list Path) e,
       _iter_python_files root fs = (before ++ p :: after)%list →
       (∀ q, q ∈ before → ∃ st, stat fs q = Return st) →
       stat fs p = Raise e →
       _snapshot_mtimes root fs = Raise e).
Proof.
  split; [|split].
  - intros m. apply snapshot_Return.
  - intros p e Hp Hst m Hm.
    apply snapshot_Return in Hm as [Hall _].
    destruct (Hall p Hp) as [st Hst']. congruence.
  - intros before p after e Hiter Hbefore Hst.
    unfold _snapshot_mtimes. rewrite Hiter.
    by apply comprehension_first_failure.
Qed.

Lemma snapshot_stat_failure_policy_witness :
  _snapshot_mtimes Demo.proj locked_tree
    = Raise (OSError "[Errno 13] Permission denied").
Proof.
  apply (proj2 (proj2 (snapshot_stat_failure_policy Demo.proj locked_tree))
           [Demo.app_py] Demo.util_py []).
  - reflexivity.
  - intros q Hq. apply list_elem_of_singleton in Hq as ->.
    exists {| st_mtime := 100 |}. reflexivity.
  - reflexivity.
Defined.

(** ** Entrypoint resolution *)

Lemma has_sep_partition sep s :
  has_sep sep s = false ↔ partition_sep sep s = None.
Proof. unfold has_sep. destruct (partition_sep sep s); split; congruence. Qed.

(** C1, as stated, fails.  ["app:"] has an empty attribute part; the
    split of line 25 succeeds, the module loads, and the failure reported
    is the missing attribute, not the format.  [":run"] has an empty unit
    part; the split succeeds again and the exception is the importer's own
    [ValueError], which no handler of [_run_app] takes. *)
Lemma malformed_locator_counterexample :
  partition_sep ":" "app:" = Some ("app", "")
  ∧ (resolve_target Demo.host (Some "app:") Demo.interp).1
      = Raise (AttributeNotFound "app" "" "app:")
  ∧ (resolve_target Demo.host (Some "app:") Demo.interp).1
      ≠ Raise (InvalidLocatorFormat "app:")
  ∧ partition_sep ":" ":run" = Some ("", "run")
  ∧ (resolve_target Demo.host (Some ":run") Demo.interp).1
      = Raise (ValueError "Empty module name").
Proof.
  split; [reflexivity|]. split; [reflexivity|]. split; [|split; reflexivity].
  vm_compute. discriminate.
Qed.

(** C1, amended.  A locator without separator makes the resolution exit
    with the format message, which quotes the locator and the expected
    pattern, and leaves the interpreter as it was.  A locator with a
    separator, whose text before the first separator names a unit that
    loads and whose text after it names a callable attribute of that unit,
    resolves to that attribute, and [_run_app] invokes it once. *)
Theorem resolve_target_locator (h : Host) (s : string) (st : Interp) :
  (has_sep ":" s = false →
   resolve_target h (Some s) st =
     (Raise (SystemExit (inl ("Invalid --app value '" ++ s
        ++ "'. Expected format 'module:attr', e.g. 'myproj.main:run'."))), st))
  ∧ (∀ module_name attr_name (m : Module) (st' : Interp) (target : PyObj),
       partition_sep ":" s = Some (module_name, attr_name) →
       import_module h module_name st = (Return m, st') →
       mod_attrs m !! attr_name = Some target →
       obj_callable target = true →
       resolve_target h (Some s) st = (Return target, st')
       ∧ _run_app h (Some s) st =
           (obj_call target,
            {| sys_path := sys_path st'; sys_modules := sys_modules st';
               calls := calls st' ++ [target] |})).
Proof.
  split.
  - intros Hsep%has_sep_partition. py_unfold. by rewrite Hsep.
  - intros module_name attr_name m st' target Hsplit Himp Hattr Hcall.
    py_unfold. rewrite Hsplit. simpl. rewrite Himp. simpl.
    unfold getattr. rewrite Hattr. simpl. rewrite Hcall. done.
Qed.

Lemma resolve_target_locator_witness :
  resolve_target Demo.host (Some "app:run") Demo.interp =
    (Return Demo.run_obj,
     {| sys_path := sys_path Demo.interp;
        sys_modules := <["app" := Demo.app_module]> ∅;
        calls := [] |})
  ∧ _run_app Demo.host (Some "app:run") Demo.interp =
      (Return tt,
       {| sys_path := sys_path Demo.interp;
          sys_modules := <["app" := Demo.app_module]> ∅;
          calls := [Demo.run_obj] |}).
Proof.
  refine (proj2 (resolve_target_locator Demo.host "app:run" Demo.interp)
            "app" "run" Demo.app_module
            {| sys_path := sys_path Demo.interp;
               sys_modules := <["app" := Demo.app_module]> ∅;
               calls := [] |}
            Demo.run_obj _ _ _ _).
  - reflexivity.
  - reflexivity.
  - reflexivity.
  - reflexivity.
Defined.

(** ** The watch root *)

(** When the unit loads and has a file, the watch root is the directory
    of that file. *)
Lemma resolve_app_directory_Return (h : Host) (s : string) (st st' : Interp)
    (cwd : Path) module_name attr_name (m : Module) (file : Path) :
  getcwd h = Return cwd →
  partition_sep ":" s = Some (module_name, attr_name) →
  import_module h module_name
    (if is_dir h cwd
     then {| sys_path := cwd :: sys_path st; sys_modules := sys_modules st;
             calls := calls st |}
     else st) = (Return m, st') →
  mod_file m = Some file →
  _resolve_app_directory h (Some s) st = (Return (parent (resolve h file)), st').
Proof.
  intros Hcwd Hsplit Himp Hfile. py_unfold. rewrite Hcwd. simpl.
  destruct (is_dir h cwd); simpl; rewrite Hsplit; simpl; rewrite Himp; simpl;
    unfold inspect_getfile; by rewrite Hfile.
Qed.

(** An exception of the import leaves [_resolve_app_directory] as it is:
    the function has no handler. *)
Lemma resolve_app_directory_import_error (h : Host) (s : string)
    (st st' : Interp) (cwd : Path) module_name attr_name (e : Exn) :
  getcwd h = Return cwd →
  partition_sep ":" s = Some (module_name, attr_name) →
  import_module h module_name
    (if is_dir h cwd
     then {| sys_path := cwd :: sys_path st; sys_modules := sys_modules st;
             calls := calls st |}
     else st) = (Raise e, st') →
  _resolve_app_directory h (Some s) st = (Raise e, st').
Proof.
  intros Hcwd Hsplit Himp. py_unfold. rewrite Hcwd. simpl.
  destruct (is_dir h cwd); simpl; rewrite Hsplit; simpl; by rewrite Himp.
Qed.

(** C5 at its failing inputs.  A unit that cannot be loaded leaves
    [_resolve_app_directory] with the importer's [ImportError], where
    [_run_app] turns the same failure into its [UnitNotFound] exit; a
    built-in unit leaves it with the [TypeError] of [inspect.getfile]. *)
Lemma resolve_app_directory_unclassified_errors :
  (_resolve_app_directory Demo.host (Some "nosuch:run") Demo.interp).1
    = Raise (ImportError "No module named 'nosuch'")
  ∧ (resolve_target Demo.host (Some "nosuch:run") Demo.interp).1
    = Raise (UnitNotFound "nosuch" "No module named 'nosuch'")
  ∧ (_resolve_app_directory Demo.host (Some "sys:exit") Demo.interp).1
    = Raise (TypeError "<module 'sys' (built-in)> is a built-in module")
  ∧ (_resolve_app_directory Demo.host (Some "app:run") Demo.interp).1
    = Return Demo.proj.
Proof. repeat split; reflexivity. Qed.

(** C10, as stated, fails: the call also changes the module cache. *)
Lemma resolve_app_directory_frame_counterexample :
  sys_path (_resolve_app_directory Demo.host (Some "app:run") Demo.interp).2
    = Demo.proj :: sys_path Demo.interp
  ∧ sys_modules Demo.interp !! "app" = None
  ∧ sys_modules (_resolve_app_directory Demo.host (Some "app:run") Demo.interp).2
      !! "app" = Some Demo.app_module
  ∧ sys_modules (_resolve_app_directory Demo.host (Some "app:run") Demo.interp).2
      ≠ sys_modules Demo.interp.
Proof.
  split; [reflexivity|]. split; [reflexivity|]. split; [reflexivity|].
  intros Heq. apply (f_equal (λ mods : gmap string Module, mods !! "app")) in Heq.
  vm_compute in Heq. discriminate.
Qed.

(** The reference importer changes the module cache at the name it
    loads, and nothing else. *)
Lemma path_import_frame (site : Site) (name : string) (st : Interp) :
  sys_path (path_import site name st).2 = sys_path st
  ∧ calls (path_import site name st).2 = calls st
  ∧ ∀ other, other ≠ name →
      sys_modules (path_import site name st).2 !! other = sys_modules st !! other.
Proof.
  unfold path_import, load. case_decide; [done|].
  destruct (is_relative name); [done|].
  destruct (sys_modules st !! name); [done|].
  destruct (builtin_modules site !! name); simpl.
  { repeat split; try done. intros other Hne. by rewrite lookup_insert_ne. }
  destruct (find_on_path site name (sys_path st)); simpl; [|done].
  repeat split; try done. intros other Hne. by rewrite lookup_insert_ne.
Qed.

(** C10, amended.  When the working directory is known, the interpreter
    after a call is the one the load of the unit leaves when it starts
    from the interpreter with the working directory put in front of
    [sys.path] (only if it is a directory).  When the locator has no
    separator or is absent nothing is loaded and the insertion is the
    whole effect; it stays in place whether the call fails or not.  When
    the working directory cannot be determined the call fails and the
    interpreter is as before. *)
Theorem resolve_app_directory_effect (h : Host) (a : option string)
    (st : Interp) :
  (∀ cwd : Path,
     getcwd h = Return cwd →
     (_resolve_app_directory h a st).2 =
       let st1 :=
         if is_dir h cwd
         then {| sys_path := cwd :: sys_path st; sys_modules := sys_modules st;
                 calls := calls st |}
         else st in
       match a with
       | Some s =>
           match partition_sep ":" s with
           | Some (module_name, _) => (import_module h module_name st1).2
           | None => st1
           end
       | None => st1
       end)
  ∧ (∀ e, getcwd h = Raise e → _resolve_app_directory h a st = (Raise e, st)).
Proof.
  split.
  - intros cwd Hcwd. py_unfold. rewrite Hcwd. simpl.
    destruct (is_dir h cwd); simpl.
    + destruct a as [s|]; simpl; [|done].
      destruct (partition_sep ":" s) as [[module_name attr_name]|]; simpl; [|done].
      destruct (import_module h module_name _) as [[m|e|] st']; simpl; [|done|done].
      by destruct (inspect_getfile m).
    + destruct a as [s|]; simpl; [|done].
      destruct (partition_sep ":" s) as [[module_name attr_name]|]; simpl; [|done].
      destruct (import_module h module_name _) as [[m|e|] st']; simpl; [|done|done].
      by destruct (inspect_getfile m).
  - intros e Hcwd. py_unfold. by rewrite Hcwd.
Qed.

Lemma resolve_app_directory_effect_witness :
  (_resolve_app_directory Demo.host (Some "app:run") Demo.interp).2 =
    (import_module Demo.host "app"
       {| sys_path := Demo.proj :: sys_path Demo.interp;
          sys_modules := sys_modules Demo.interp;
          calls := calls Demo.interp |}).2.
Proof.
  refine (proj1 (resolve_app_directory_effect Demo.host (Some "app:run")
                   Demo.interp) Demo.proj _).
  reflexivity.
Defined.

(** ** The reloader loop *)

Section reloader.
Context (h : Host).
Implicit Types (s : Sup) (v : Locals) (proc : Pid) (script : list Reply).
Implicit Types (tr : list Event).

Lemma run_ended s script : pending h s = None → run h s script = Some ([], s).
Proof. intros Hp. destruct script; simpl; by rewrite Hp. Qed.

Lemma run_ended_nil s : run h s [] = Some ([], s).
Proof. simpl. by destruct (pending h s). Qed.

Lemma run_cons s a r s' script :
  pending h s = Some a → step s r = Some s' →
  run h s (r :: script) = after [(a, r)] (run h s' script).
Proof.
  intros Hp Hs. simpl. rewrite Hp, Hs. simpl.
  by destruct (run h s' script) as [[tr s'']|].
Qed.

Lemma run_app s script more tr s' :
  run h s script = Some (tr, s') →
  run h s (script ++ more) = after tr (run h s' more).
Proof.
  revert s tr. induction script as [|r script IH]; intros s tr Hrun.
  - destruct (pending h s) eqn:Hp; simpl in Hrun; rewrite ?Hp in Hrun;
      injection Hrun as <- <-; simpl;
      by destruct (run h s more) as [[tr' s'']|].
  - destruct (pending h s) as [a|] eqn:Hp.
    + simpl in Hrun. rewrite Hp in Hrun.
      destruct (step s r) as [s1|] eqn:Hs; [|discriminate]. simpl in Hrun.
      destruct (run h s1 script) as [[tr1 s2]|] eqn:Hrun1; [|discriminate].
      injection Hrun as <- <-.
      change ((r :: script) ++ more)%list with (r :: (script ++ more))%list.
      rewrite (run_cons _ _ _ _ _ Hp Hs), (IH _ _ Hrun1).
      by destruct (run h s2 more) as [[tr' s'']|].
    + rewrite run_ended in Hrun by done. injection Hrun as <- <-.
      rewrite !run_ended by done. done.
Qed.

Lemma ending_of_Running s s' : ending_of s = Running s' → s = s'.
Proof. destruct s; simpl; unfold sys_exit; congruence. Qed.

Lemma finish_not_Running r s : ending (finish r) ≠ Running s.
Proof. unfold finish. simpl. by destruct (r.1). Qed.

(** A supervisor that [main] left running continues as [run] says. *)
Lemma main_extend args fs0 script more st tr s st' :
  main h args fs0 script st
    = Some {| events := tr; ending := Running s; final := st' |} →
  main h args fs0 (script ++ more) st =
    match run h s more with
    | Some (tr', s') =>
        Some {| events := tr ++ tr'; ending := ending_of s'; final := st' |}
    | None => None
    end.
Proof.
  unfold main. case_decide as Henv.
  { intros Hex. apply (inj Some), (f_equal ending) in Hex.
    by apply finish_not_Running in Hex. }
  destruct (reload args && negb (no_reload args)); last first.
  { intros Hex. apply (inj Some), (f_equal ending) in Hex.
    by apply finish_not_Running in Hex. }
  unfold _run_with_reloader.
  destruct (_resolve_app_directory h (app args) st) as [[root|e|] st1];
    [|intros [= _ ? _]; discriminate..].
  destruct (_snapshot_mtimes root fs0) as [m|e|];
    [|intros [= _ ? _]; discriminate..].
  destruct (app args) as [a|]; [|intros [= _ ? _]; discriminate].
  destruct (run h _ script) as [[tr0 s0]|] eqn:Hrun; [|discriminate].
  intros [= -> Hend ->]. apply ending_of_Running in Hend as ->.
  rewrite (run_app _ _ more _ _ Hrun).
  by destruct (run h s more) as [[tr' s']|].
Qed.


End reloader.




(** C6.  Let the supervisor be at the scan of line 116 with child [proc],
    and let the fresh snapshot [new] differ from the baseline.  Then the
    baseline becomes [new] and the calls that follow are: [terminate] on
    the child, [wait] with a timeout of 5; if the wait returns, nothing
    more; if it times out, [kill] on the child.  After either, the
    supervisor is at line 103 with the new baseline, about to start a
    child with the same command. *)
Theorem restart_sequence (h : Host) (v : Locals) (proc : Pid) (fs : FS)
    (new : Snapshot) :
  _snapshot_mtimes (package_root v) fs = Return new →
  new ≠ mtimes v →
  let v' := {| package_root := package_root v; mtimes := new;
               app_path := app_path v |} in
  (∀ rc script,
     run h (Scanning v proc) (Tree fs :: Signalled :: Exited rc :: script)
     = after [(Scan (package_root v), Tree fs);
              (Terminate proc, Signalled);
              (Wait proc 5, Exited rc)]
         (run h (Spawning v') script))
  ∧ (∀ script,
       run h (Scanning v proc)
         (Tree fs :: Signalled :: TimeoutExpired :: Signalled :: script)
       = after [(Scan (package_root v), Tree fs);
                (Terminate proc, Signalled);
                (Wait proc 5, TimeoutExpired);
                (Kill proc, Signalled)]
           (run h (Spawning v') script))
  ∧ pending h (Spawning v')
      = Some (Popen (child_cmd h (app_path v)) (child_env h)).
Proof.
  intros Hsnap Hne v'.
  assert (Hstep : step (Scanning v proc) (Tree fs) = Some (Restart_terminate v' proc)).
  { simpl. rewrite Hsnap. simpl. by rewrite decide_True. }
  split; [|split; [|done]].
  - intros rc script.
    rewrite (run_cons h (Scanning v proc) (Scan (package_root v)) _ _ _ eq_refl Hstep).
    rewrite (run_cons h _ (Terminate proc) _ (Restart_wait v' proc)) by done.
    rewrite (run_cons h _ (Wait proc 5) _ (Spawning v')) by done.
    by destruct (run h (Spawning v') script) as [[tr s]|].
  - intros script.
    rewrite (run_cons h (Scanning v proc) (Scan (package_root v)) _ _ _ eq_refl Hstep).
    rewrite (run_cons h _ (Terminate proc) _ (Restart_wait v' proc)) by done.
    rewrite (run_cons h _ (Wait proc 5) _ (Restart_kill v' proc)) by done.
    rewrite (run_cons h _ (Kill proc) _ (Spawning v')) by done.
    by destruct (run h (Spawning v') script) as [[tr s]|].
Qed.

Lemma restart_sequence_witness :
  run Demo.host (Scanning DemoRun.locals0 1)
    [Tree DemoRun.tree1; Signalled; Exited (-15); Spawned 2]
  = after [(Scan Demo.proj, Tree DemoRun.tree1);
           (Terminate 1, Signalled);
           (Wait 1 5, Exited (-15))]
      (run Demo.host (Spawning DemoRun.locals1) [Spawned 2]).
Proof.
  refine (proj1 (restart_sequence Demo.host DemoRun.locals0 1 DemoRun.tree1
                   (<[Demo.app_py := 101%Z]> DemoRun.snapshot0) _ _)
            (-15)%Z [Spawned 2]).
  - reflexivity.
  - intros Heq.
    apply (f_equal (λ m : Snapshot, m !! Demo.app_py)) in Heq.
    vm_compute in Heq. discriminate.
Defined.

(** ** One child at a time *)

(** A child that exits within the grace period has been waited for when
    its successor is started. *)
Lemma respawn_after_wait_reaps_child :
  ∃ ex,
    main Demo.host Demo.args_reload Demo.tree
      [Spawned 1; Polled None; Slept; Tree DemoRun.tree1;
       Signalled; Exited (-15); Spawned 2] Demo.interp = Some ex
    ∧ ending ex = Running (Polling DemoRun.locals1 2)
    ∧ unreaped (events ex) = [2].
Proof. eexists. split; [reflexivity|]. split; reflexivity. Qed.

(** C7 at its failing input: a child that does not exit within the grace
    period is sent [kill] and is not waited for; the next child is started
    while the termination of the first has not been observed. *)
Lemma respawn_after_kill_leaves_child_unreaped :
  ∃ ex,
    main Demo.host Demo.args_reload Demo.tree
      [Spawned 1; Polled None; Slept; Tree DemoRun.tree1;
       Signalled; TimeoutExpired; Signalled; Spawned 2] Demo.interp = Some ex
    ∧ (events ex).*1 =
        [DemoRun.popen; Poll 1; Sleep 1; Scan Demo.proj;
         Terminate 1; Wait 1 5; Kill 1; DemoRun.popen]
    ∧ ending ex = Running (Polling DemoRun.locals1 2)
    ∧ unreaped (events ex) = [1; 2].
Proof. eexists. split; [reflexivity|]. repeat split; reflexivity. Qed.

(** The same on every run: a restart through the timeout removes no child
    from those not reaped, and adds the new one. *)
Lemma restart_by_kill_does_not_reap (h : Host) (v : Locals) (proc pid' : Pid)
    (fs : FS) (new : Snapshot) (live : list Pid) :
  _snapshot_mtimes (package_root v) fs = Return new →
  new ≠ mtimes v →
  ∃ tr s,
    run h (Scanning v proc)
      [Tree fs; Signalled; TimeoutExpired; Signalled; Spawned pid'] = Some (tr, s)
    ∧ pending h s = Some (Poll pid')
    ∧ unreaped_from live tr = (live ++ [pid'])%list.
Proof.
  intros Hsnap Hne. simpl. rewrite Hsnap. simpl.
  rewrite decide_True by done. simpl.
  eexists _, _. split; [reflexivity|]. done.
Qed.

(** Without a timed-out wait the supervisor never has two children whose
    termination it has not observed. *)
Lemma unreaped_from_app (live : list Pid) (tr tr' : list Event) :
  unreaped_from live (tr ++ tr') = unreaped_from (unreaped_from live tr) tr'.
Proof.
  revert live. induction tr as [|[a r] tr IH]; intros live; [done|].
  destruct a, r; simpl; try apply IH.
  - destruct return_code; apply IH.
Qed.

Lemma in_try_tidy (e : Exn) (proc : Pid) : tidy (in_try e proc) [proc].
Proof. destruct e; simpl; auto. Qed.

Lemma step_tidy (h : Host) (s s' : Sup) (a : Action) (r : Reply)
    (live : list Pid) :
  pending h s = Some a → step s r = Some s' → r ≠ TimeoutExpired →
  tidy s live → tidy s' (unreaped_from live [(a, r)]).
Proof.
  intros Hp Hs Hr Ht.
  destruct s; simpl in Ht; try done; subst live;
    simpl in Hp; injection Hp as <-;
    destruct r; simpl in Hs; try discriminate; try done;
    try (injection Hs as <-; simpl; rewrite ?Nat.eqb_refl; simpl;
         first [done | lia | apply in_try_tidy]).
  - destruct return_code; injection Hs as <-; simpl;
      rewrite ?Nat.eqb_refl; simpl; [lia | done].
  - injection Hs as <-. simpl. unfold compare.
    destruct (_snapshot_mtimes (package_root v) fs); simpl;
      [case_decide; done | apply in_try_tidy | lia].
Qed.

Lemma run_tidy (h : Host) (script : list Reply) (s s' : Sup)
    (tr : list Event) (live : list Pid) :
  run h s script = Some (tr, s') → TimeoutExpired ∉ script →
  tidy s live → tidy s' (unreaped_from live tr).
Proof.
  revert s tr live. induction script as [|r script IH]; intros s tr live Hrun Hno Ht.
  - rewrite (run_ended_nil h s) in Hrun. by injection Hrun as <- <-.
  - destruct (pending h s) as [a|] eqn:Hp.
    + simpl in Hrun. rewrite Hp in Hrun.
      destruct (step s r) as [s1|] eqn:Hs; [|discriminate]. simpl in Hrun.
      destruct (run h s1 script) as [[tr1 s2]|] eqn:Hrun1; [|discriminate].
      injection Hrun as <- <-.
      change ((a, r) :: tr1) with ([(a, r)] ++ tr1)%list.
      rewrite unreaped_from_app.
      apply (IH s1); [done| |].
      * intros Hin. apply Hno. by right.
      * apply (step_tidy h s); [done|done| |done].
        intros ->. apply Hno. by left.
    + rewrite run_ended in Hrun by done. by injection Hrun as <- <-.
Qed.

Lemma one_child_without_forced_kill (h : Host) (v : Locals)
    (script : list Reply) (tr : list Event) (s : Sup) :
  run h (Spawning v) script = Some (tr, s) → TimeoutExpired ∉ script →
  (length (unreaped tr) ≤ 1)%nat.
Proof.
  intros Hrun Hno.
  pose proof (run_tidy h script _ _ _ [] Hrun Hno eq_refl) as Ht.
  fold (unreaped tr) in Ht.
  destruct s; simpl in Ht; try (rewrite Ht; simpl; lia); done.
Qed.

(** ** Interrupt *)

(** C8.  Let the supervisor be running in reload mode, in the polling
    iteration with child [proc], and let the call it is in be interrupted.
    Then it calls [terminate] on the child and [wait] with a timeout of 5;
    if the wait times out it calls [kill]; it starts no child, and the
    supervisor process exits with status 0. *)
Theorem interrupt_stops_child_and_exits_zero (h : Host) (args : Args)
    (fs0 : FS) (script rest : list Reply) (st st' : Interp)
    (tr : list Event) (s : Sup) (proc : Pid) :
  main h args fs0 script st
    = Some {| events := tr; ending := Running s; final := st' |} →
  watching s = Some proc →
  ∃ a, pending h s = Some a
  ∧ (∀ rc,
       main h args fs0
         (script ++ Failed KeyboardInterrupt :: Signalled :: Exited rc :: rest) st
       = Some {| events := tr ++ [(a, Failed KeyboardInterrupt);
                                  (Terminate proc, Signalled);
                                  (Wait proc 5, Exited rc)];
                 ending := Exit 0; final := st' |})
  ∧ main h args fs0
      (script ++ Failed KeyboardInterrupt :: Signalled :: TimeoutExpired
              :: Signalled :: rest) st
    = Some {| events := tr ++ [(a, Failed KeyboardInterrupt);
                               (Terminate proc, Signalled);
                               (Wait proc 5, TimeoutExpired);
                               (Kill proc, Signalled)];
              ending := Exit 0; final := st' |}.
Proof.
  intros Hmain Hs.
  assert (∃ a, pending h s = Some a
               ∧ step s (Failed KeyboardInterrupt) = Some (Stop_terminate proc))
    as (a & Hp & Hstep).
  { destruct s; simpl in Hs; try discriminate; injection Hs as ->;
      eexists; split; reflexivity. }
  exists a. split; [done|]. split.
  - intros rc. rewrite (main_extend _ _ _ _ _ _ _ _ _ Hmain).
    rewrite (run_cons h _ _ _ _ _ Hp Hstep).
    rewrite (run_cons h _ (Terminate proc) _ (Stop_wait proc)) by done.
    rewrite (run_cons h _ (Wait proc 5) _ (Returned 0)) by done.
    by rewrite run_ended.
  - rewrite (main_extend _ _ _ _ _ _ _ _ _ Hmain).
    rewrite (run_cons h _ _ _ _ _ Hp Hstep).
    rewrite (run_cons h _ (Terminate proc) _ (Stop_wait proc)) by done.
    rewrite (run_cons h _ (Wait proc 5) _ (Stop_kill proc)) by done.
    rewrite (run_cons h _ (Kill proc) _ (Returned 0)) by done.
    by rewrite run_ended.
Qed.

Lemma interrupt_stops_child_and_exits_zero_witness :
  ∃ a, pending Demo.host (Sleeping DemoRun.locals0 1) = Some a
  ∧ (∀ rc,
       main Demo.host Demo.args_reload Demo.tree
         ([Spawned 1; Polled None]
            ++ Failed KeyboardInterrupt :: Signalled :: Exited rc :: []) Demo.interp
       = Some {| events := [(DemoRun.popen, Spawned 1); (Poll 1, Polled None)]
                             ++ [(a, Failed KeyboardInterrupt);
                                 (Terminate 1, Signalled);
                                 (Wait 1 5, Exited rc)];
                 ending := Exit 0; final := DemoRun.interp1 |})
  ∧ main Demo.host Demo.args_reload Demo.tree
      ([Spawned 1; Polled None]
         ++ Failed KeyboardInterrupt :: Signalled :: TimeoutExpired
         :: Signalled :: []) Demo.interp
    = Some {| events := [(DemoRun.popen, Spawned 1); (Poll 1, Polled None)]
                          ++ [(a, Failed KeyboardInterrupt);
                              (Terminate 1, Signalled);
                              (Wait 1 5, TimeoutExpired);
                              (Kill 1, Signalled)];
              ending := Exit 0; final := DemoRun.interp1 |}.
Proof.
  refine (interrupt_stops_child_and_exits_zero Demo.host Demo.args_reload
            Demo.tree [Spawned 1; Polled None] [] Demo.interp DemoRun.interp1
            [(DemoRun.popen, Spawned 1); (Poll 1, Polled None)]
            (Sleeping DemoRun.locals0 1) 1 _ _).
  - reflexivity.
  - reflexivity.
Defined.

(** ** Direct run *)



(** * Further properties of the code *)

(** ** Splitting the locator (line 25) *)

Lemma partition_sep_None (sep : ascii) (s : string) :
  partition_sep sep s = None ↔ ∀ i, String.get i s ≠ Some sep.
Proof.
  induction s as [|c s IH]; simpl.
  - split; [intros _ i; by destruct i | done].
  - destruct (Ascii.eqb c sep) eqn:Hc.
    + apply Ascii.eqb_eq in Hc as ->. split; [done|].
      intros Hno. by destruct (Hno 0).
    + apply Ascii.eqb_neq in Hc.
      destruct (partition_sep sep s) as [[a b]|].
      * split; [done|]. intros Hno.
        assert (∀ i, String.get i s ≠ Some sep) as Hs
          by (intros i; apply (Hno (S i))).
        apply IH in Hs. discriminate.
      * split; [|done]. intros _ [|i]; simpl; [congruence|].
        by apply IH.
  Qed.

Lemma append_String (c : ascii) (a b : string) :
  String c a ++ b = String c (a ++ b).
Proof. reflexivity. Qed.

Lemma append_Empty (b : string) : EmptyString ++ b = b.
Proof. reflexivity. Qed.

Lemma partition_sep_first (sep : ascii) (a b : string) :
  (∀ i, String.get i a ≠ Some sep) →
  partition_sep sep (a ++ String sep b) = Some (a, b).
Proof.
  induction a as [|c a IH]; intros Hno;
    rewrite ?append_String, ?append_Empty; simpl.
  - by rewrite Ascii.eqb_refl.
  - destruct (Ascii.eqb c sep) eqn:Hc.
    + apply Ascii.eqb_eq in Hc as ->. by destruct (Hno 0).
    + rewrite IH; [done|]. intros i. apply (Hno (S i)).
Qed.

Lemma partition_sep_join (sep : ascii) (s a b : string) :
  partition_sep sep s = Some (a, b) → s = a ++ String sep b.
Proof.
  revert a. induction s as [|c s IH]; intros a; simpl; [done|].
  destruct (Ascii.eqb c sep) eqn:Hc.
  - apply Ascii.eqb_eq in Hc as ->. by intros [= <- <-].
  - destruct (partition_sep sep s) as [[a' b']|]; [|done].
    intros [= <- <-]. rewrite append_String. f_equal. by apply IH.
Qed.

(** X1.  [s.split(sep, 1)] cuts at the first separator: a text without
    separator comes back whole; a text [a ++ sep ++ b] in which [a] has no
    separator comes back as [a] and [b], whatever separators [b] holds;
    and two parts always join back to the text. *)
Theorem split1_first_separator (sep : ascii) (s a b : string) :
  ((∀ i, String.get i s ≠ Some sep) → split1 sep s = [s])
  ∧ ((∀ i, String.get i a ≠ Some sep) →
     split1 sep (a ++ String sep b) = [a; b])
  ∧ (split1 sep s = [a; b] → s = a ++ String sep b).
Proof.
  unfold split1. split; [|split].
  - intros Hno%partition_sep_None. by rewrite Hno.
  - intros Hno. by rewrite partition_sep_first.
  - destruct (partition_sep sep s) as [[a' b']|] eqn:Hp; [|done].
    intros [= <- <-]. by apply partition_sep_join.
Qed.

Lemma split1_first_separator_witness :
  split1 ":" ("pkg.main" ++ String ":" "run:x") = ["pkg.main"; "run:x"].
Proof.
  refine (proj1 (proj2 (split1_first_separator ":" "" "pkg.main" "run:x")) _).
  intros i. do 9 (destruct i as [|i]; [simpl; discriminate|]).
  simpl. discriminate.
Defined.

(** ** The failures of [_run_app] (lines 31-46) *)

(** X2.  When the import of the unit raises [ImportError], [_run_app]
    exits with the message that names the unit and quotes the importer's
    text; any other exception of the import leaves [_run_app] unchanged.
    In both cases the interpreter is as the import left it. *)
Theorem run_app_import_failure (h : Host) (s module_name attr_name : string)
    (st st' : Interp) (e : Exn) :
  partition_sep ":" s = Some (module_name, attr_name) →
  import_module h module_name st = (Raise e, st') →
  _run_app h (Some s) st =
    (Raise match e with
           | ImportError exc =>
               SystemExit (inl ("Could not import module '" ++ module_name
                                ++ "' for --app: " ++ exc))
           | _ => e
           end, st').
Proof.
  intros Hsplit Himp. py_unfold. rewrite Hsplit. simpl. rewrite Himp.
  by destruct e.
Qed.

Lemma run_app_import_failure_witness :
  _run_app Demo.host (Some "nosuch:run") Demo.interp =
    (Raise (SystemExit (inl ("Could not import module '" ++ "nosuch"
                             ++ "' for --app: " ++ "No module named 'nosuch'"))),
     Demo.interp).
Proof.
  refine (run_app_import_failure Demo.host "nosuch:run" "nosuch" "run"
            Demo.interp Demo.interp (ImportError "No module named 'nosuch'") _ _).
  - reflexivity.
  - reflexivity.
Defined.

(** X3.  When the unit loads, an attribute it does not have makes
    [_run_app] exit with the message that names unit, attribute and
    locator; an attribute that is not callable makes it exit with the
    not-callable message.  Neither is invoked: the history of invocations
    is the one the import left. *)
Theorem run_app_attribute_failure (h : Host) (s module_name attr_name : string)
    (m : Module) (st st' : Interp) :
  partition_sep ":" s = Some (module_name, attr_name) →
  import_module h module_name st = (Return m, st') →
  (mod_attrs m !! attr_name = None →
   _run_app h (Some s) st =
     (Raise (SystemExit (inl ("Module '" ++ module_name ++ "' has no attribute '"
        ++ attr_name ++ "' (from --app '" ++ s ++ "')."))), st'))
  ∧ (∀ target, mod_attrs m !! attr_name = Some target →
       obj_callable target = false →
       _run_app h (Some s) st =
         (Raise (SystemExit (inl ("Attribute '" ++ attr_name ++ "' in module '"
            ++ module_name ++ "' is not callable (from --app '" ++ s ++ "')."))),
          st')).
Proof.
  intros Hsplit Himp. split.
  - intros Hattr. py_unfold. rewrite Hsplit. simpl. rewrite Himp. simpl.
    unfold getattr. by rewrite Hattr.
  - intros target Hattr Hcall. py_unfold. rewrite Hsplit. simpl.
    rewrite Himp. simpl. unfold getattr. rewrite Hattr. simpl.
    by rewrite Hcall.
Qed.

Lemma run_app_attribute_failure_witness :
  _run_app Demo.host (Some "app:VERSION") Demo.interp =
    (Raise (SystemExit (inl ("Attribute '" ++ "VERSION" ++ "' in module '"
       ++ "app" ++ "' is not callable (from --app '" ++ "app:VERSION" ++ "')."))),
     {| sys_path := sys_path Demo.interp;
        sys_modules := <["app" := Demo.app_module]> ∅;
        calls := [] |}).
Proof.
  refine (proj2 (run_app_attribute_failure Demo.host "app:VERSION" "app"
                   "VERSION" Demo.app_module Demo.interp _ _ _)
            Demo.version_obj _ _).
  - reflexivity.
  - reflexivity.
  - reflexivity.
  - reflexivity.
Defined.

(** ** Running without [--app] (line 155: the option has no default) *)

(** X4.  Without [--app] the namespace holds [None], and in every mode
    the program ends with the [AttributeError] of [None.split]: nothing is
    invoked and no child is started.  (In reload mode the working
    directory is read first; it is assumed readable.) *)
Theorem main_without_app (h : Host) (args : Args) (fs0 : FS)
    (script : list Reply) (st : Interp) (cwd : Path) :
  app args = None →
  getcwd h = Return cwd →
  ∃ ex, main h args fs0 script st = Some ex
  ∧ ending ex = Dies (AttributeError "'NoneType' object has no attribute 'split'")
  ∧ events ex = []
  ∧ calls (final ex) = calls st.
Proof.
  intros Happ Hcwd. unfold main. rewrite Happ.
  assert (finish (_run_app h None st) =
          {| events := [];
             ending := Dies (AttributeError "'NoneType' object has no attribute 'split'");
             final := st |}) as Hdirect by reflexivity.
  case_decide; [rewrite Hdirect; by eexists|].
  destruct (reload args && negb (no_reload args));
    [|rewrite Hdirect; by eexists].
  unfold _run_with_reloader. rewrite Happ. py_unfold. rewrite Hcwd. simpl.
  destruct (is_dir h cwd); simpl; by eexists.
Qed.

Lemma main_without_app_witness :
  ∃ ex, main Demo.host {| reload := true; no_reload := false; app := None |}
          Demo.tree [Spawned 1] Demo.interp = Some ex
  ∧ ending ex = Dies (AttributeError "'NoneType' object has no attribute 'split'")
  ∧ events ex = []
  ∧ calls (final ex) = calls Demo.interp.
Proof.
  refine (main_without_app Demo.host
            {| reload := true; no_reload := false; app := None |}
            Demo.tree [Spawned 1] Demo.interp Demo.proj _ _).
  - reflexivity.
  - reflexivity.
Defined.

(** ** The role marker (lines 91-92 and 165) *)

(** X6.  The environment a supervisor gives its child is its own with the
    marker set to ["1"] and every other variable kept; and a process
    started with that environment runs the application once whatever its
    flags are, also with [--reload]: a child never supervises. *)
Theorem spawned_child_is_runner (h : Host) (args : Args) (fs0 : FS)
    (script : list Reply) (st : Interp) :
  child_env h !! _CHILD_ENV_VAR = Some "1"
  ∧ (∀ name, name ≠ _CHILD_ENV_VAR → child_env h !! name = environ h !! name)
  ∧ main (child_host h) args fs0 script st
    = Some (finish (_run_app (child_host h) (app args) st))
  ∧ events (finish (_run_app (child_host h) (app args) st)) = [].
Proof.
  assert (child_env h !! _CHILD_ENV_VAR = Some "1") as Hmark
    by (unfold child_env; apply lookup_insert_eq).
  split; [done|]. split; [|split; [|done]].
  - intros name Hne. unfold child_env. by rewrite lookup_insert_ne.
  - unfold main. simpl. by rewrite decide_True.
Qed.

(** ** Which files are watched (lines 52-55) *)

Lemma length_append (a b : string) :
  String.length (a ++ b) = (String.length a + String.length b)%nat.
Proof.
  induction a as [|c a IH]; [done|].
  rewrite append_String. simpl. by rewrite IH.
Qed.

Lemma substring_whole (s : string) : substring 0 (String.length s) s = s.
Proof. induction s as [|c s IH]; simpl; [done | by rewrite IH]. Qed.

Lemma substring_append_suffix (pre suf : string) :
  substring (String.length pre) (String.length suf) (pre ++ suf) = suf.
Proof.
  induction pre as [|c pre IH]; [apply substring_whole|].
  rewrite append_String. simpl. apply IH.
Qed.

Lemma substring_split (s : string) (n : nat) :
  (n ≤ String.length s)%nat →
  s = substring 0 n s ++ substring n (String.length s - n)%nat s.
Proof.
  revert n. induction s as [|c s IH]; intros n Hn.
  - simpl in Hn. assert (n = 0) as -> by lia. done.
  - destruct n as [|n].
    + simpl. rewrite substring_whole. done.
    + simpl in Hn. simpl. rewrite append_String. f_equal.
      apply IH. lia.
Qed.

Lemma endswith_spec (s suffix : string) :
  endswith s suffix = true ↔ ∃ stem, s = stem ++ suffix.
Proof.
  unfold endswith. rewrite andb_true_iff, Nat.leb_le, String.eqb_eq. split.
  - intros [Hle Hsub].
    exists (substring 0 (String.length s - String.length suffix)%nat s).
    pose proof (substring_split s (String.length s - String.length suffix)%nat)
      as Hs.
    replace (String.length s - (String.length s - String.length suffix))%nat
      with (String.length suffix) in Hs by lia.
    rewrite Hsub in Hs. apply Hs. lia.
  - intros [stem ->]. rewrite length_append. split; [lia|].
    replace (String.length stem + String.length suffix - String.length suffix)%nat
      with (String.length stem) by lia.
    apply substring_append_suffix.
Qed.

Lemma relative_to_spec (root p rel : Path) :
  relative_to root p = Some rel ↔ p = (root ++ rel)%list.
Proof.
  revert p. induction root as [|r root IH]; intros p; simpl.
  - split; congruence.
  - destruct p as [|c p]; [split; discriminate|].
    destruct (String.eqb r c) eqn:Hrc.
    + apply String.eqb_eq in Hrc as ->. rewrite IH. split; congruence.
    + apply String.eqb_neq in Hrc. split; [discriminate|congruence].
Qed.

(** X7.  The walk yields exactly the listed paths that lie strictly below
    the root and whose last component ends in [.py], at any depth; it
    never yields the root itself or a path outside the root. *)
Theorem iter_python_files_spec (root : Path) (fs : FS) (p : Path) :
  p ∈ _iter_python_files root fs ↔
  p ∈ fs.*1 ∧ ∃ (dirs : list string) (stem : string),
    p = (root ++ dirs ++ [(stem ++ ".py")%string])%list.
Proof.
  rewrite elem_of_iter_python_files. unfold rglob_match, fnmatch_py.
  split; intros [Hin Hm]; (split; [done|]).
  - destruct (relative_to root p) as [rel|] eqn:Hrel; [|done].
    destruct (last rel) as [name|] eqn:Hlast; [|done].
    apply relative_to_spec in Hrel. apply last_Some in Hlast as [dirs ->].
    apply endswith_spec in Hm as [stem ->]. eauto.
  - destruct Hm as (dirs & stem & ->).
    assert (relative_to root (root ++ dirs ++ [(stem ++ ".py")%string])%list
            = Some (dirs ++ [(stem ++ ".py")%string])%list) as ->
      by by apply relative_to_spec.
    rewrite last_snoc. apply endswith_spec. eauto.
Qed.

(** ** Snapshots do not depend on the order of the walk (line 60) *)

Lemma stat_not_listed (fs : FS) (p : Path) :
  p ∉ fs.*1 → stat fs p = Raise (OSError "[Errno 2] No such file or directory").
Proof.
  induction fs as [|[q r] fs IH]; simpl; [done|].
  intros Hnin. rewrite decide_False.
  - apply IH. intros Hin. apply Hnin. by right.
  - intros ->. apply Hnin. by left.
Qed.

Lemma stat_listed (fs : FS) (p : Path) (r : Outcome stat_result) :
  NoDup fs.*1 → (p, r) ∈ fs → stat fs p = r.
Proof.
  induction fs as [|[q r'] fs IH]; simpl; [by intros _ ?%elem_of_nil|].
  intros [Hq Hnd]%NoDup_cons [Heq|Hin]%elem_of_cons.
  - injection Heq as -> ->. by rewrite decide_True.
  - rewrite decide_False; [by apply IH|].
    intros ->. apply Hq. apply list_elem_of_fmap. by exists (p, r).
Qed.

Lemma stat_Permutation (fs fs' : FS) (p : Path) :
  NoDup fs.*1 → fs ≡ₚ fs' → stat fs p = stat fs' p.
Proof.
  intros Hnd Hperm.
  assert (NoDup fs'.*1) as Hnd' by by rewrite <- Hperm.
  destruct (decide (p ∈ fs.*1)) as [Hin|Hnin].
  - apply list_elem_of_fmap in Hin as ([q r] & -> & Hin). simpl.
    rewrite (stat_listed fs q r) by done.
    symmetry. apply stat_listed; [done|]. by rewrite <- Hperm.
  - rewrite !stat_not_listed; [done| |done]. by rewrite <- Hperm.
Qed.

(** X8.  Two listings of the same tree (the same entries, each path once,
    in any order) give the same snapshot: one returns [m] exactly when the
    other does. *)
Theorem snapshot_order_independent (root : Path) (fs fs' : FS) (m : Snapshot) :
  NoDup fs.*1 →
  fs ≡ₚ fs' →
  _snapshot_mtimes root fs = Return m ↔ _snapshot_mtimes root fs' = Return m.
Proof.
  intros Hnd Hperm.
  assert (∀ p, p ∈ _iter_python_files root fs ↔ p ∈ _iter_python_files root fs')
    as Hiter.
  { intros p. rewrite !elem_of_iter_python_files. by rewrite Hperm. }
  assert (∀ p, mtime_of fs p = mtime_of fs' p) as Hmt.
  { intros p. unfold mtime_of. by rewrite (stat_Permutation fs fs'). }
  rewrite !snapshot_Return. split; intros [Hall Hlook]; split.
  - intros p Hp%Hiter. rewrite <- (stat_Permutation fs fs') by done. auto.
  - intros p. rewrite Hlook, Hmt.
    destruct (decide (p ∈ _iter_python_files root fs)) as [Hp|Hp].
    + rewrite decide_True; [done|by apply Hiter].
    + rewrite decide_False; [done|]. by rewrite <- Hiter.
  - intros p Hp%Hiter. rewrite (stat_Permutation fs fs') by done. auto.
  - intros p. rewrite Hlook, Hmt.
    destruct (decide (p ∈ _iter_python_files root fs')) as [Hp|Hp].
    + rewrite decide_True; [done|by apply Hiter].
    + rewrite decide_False; [done|]. by rewrite Hiter.
Qed.

Lemma snapshot_order_independent_witness :
  _snapshot_mtimes Demo.proj Demo.tree = Return DemoRun.snapshot0 ↔
  _snapshot_mtimes Demo.proj (reverse Demo.tree) = Return DemoRun.snapshot0.
Proof.
  refine (snapshot_order_independent Demo.proj Demo.tree (reverse Demo.tree)
            DemoRun.snapshot0 _ _).
  - refine (bool_decide_unpack (NoDup Demo.tree.*1) _). vm_compute. exact I.
  - apply Permutation_sym, reverse_Permutation.
Defined.

(** ** Deleted and created files (lines 116-117) *)

Lemma set_mtime_paths (d : Path) (t : Z) (fs : FS) :
  (set_mtime d t fs).*1 = fs.*1.
Proof.
  unfold set_mtime. induction fs as [|[q o] fs IH]; simpl; [done|].
  f_equal; [|done]. by case_decide.
Qed.

Lemma stat_set_mtime_ne (d q : Path) (t : Z) (fs : FS) :
  q ≠ d → stat (set_mtime d t fs) q = stat fs q.
Proof.
  intros Hne. unfold set_mtime.
  induction fs as [|[x o] fs IH]; simpl; [done|].
  destruct (decide (x = d)) as [->|Hx]; simpl.
  - by rewrite !decide_False by done.
  - by destruct (decide (x = q)).
Qed.

Lemma stat_set_mtime_eq (d : Path) (t : Z) (fs : FS) :
  stat (set_mtime d t fs) d =
    match stat fs d with
    | Return _ => Return {| st_mtime := t |}
    | o => o
    end.
Proof.
  unfold set_mtime. induction fs as [|[x o] fs IH]; simpl; [done|].
  destruct (decide (x = d)) as [->|Hx]; simpl.
  - by rewrite decide_True.
  - by rewrite decide_False.
Qed.

Lemma snapshot_set_mtime (root d : Path) (t : Z) (fs : FS) (m : Snapshot) :
  _snapshot_mtimes root fs = Return m →
  _snapshot_mtimes root (set_mtime d t fs)
  = Return (if decide (d ∈ _iter_python_files root fs) then <[d := t]> m else m).
Proof.
  intros [Hall Hlook]%snapshot_Return. apply snapshot_Return.
  assert (_iter_python_files root (set_mtime d t fs) = _iter_python_files root fs)
    as Hiter by (unfold _iter_python_files; by rewrite set_mtime_paths).
  rewrite Hiter. split.
  - intros q Hq. destruct (decide (q = d)) as [->|Hne].
    + rewrite stat_set_mtime_eq. destruct (Hall d Hq) as [st ->]. eauto.
    + rewrite stat_set_mtime_ne by done. auto.
  - intros q. unfold mtime_of.
    destruct (decide (d ∈ _iter_python_files root fs)) as [Hd|Hd].
    + destruct (decide (q = d)) as [->|Hne].
      * rewrite lookup_insert_eq, decide_True, stat_set_mtime_eq by done.
        by destruct (Hall d Hd) as [st ->].
      * rewrite lookup_insert_ne, Hlook, stat_set_mtime_ne by done. done.
    + rewrite Hlook. case_decide as Hq; [|done].
      rewrite stat_set_mtime_ne; [done|]. by intros ->.
Qed.








Lemma elem_of_add_entry_paths (p q : Path) (st : stat_result) (fs : FS) :
  q ∈ (add_entry p st fs).*1 ↔ q ∈ fs.*1 ∨ q = p.
Proof.
  unfold add_entry. rewrite fmap_app, elem_of_app. simpl.
  by rewrite list_elem_of_singleton.
Qed.

Lemma stat_add_entry_ne (p q : Path) (st : stat_result) (fs : FS) :
  q ≠ p → stat (add_entry p st fs) q = stat fs q.
Proof.
  intros Hne. unfold add_entry.
  induction fs as [|[x r] fs IH]; simpl.
  - by rewrite decide_False by done.
  - by destruct (decide (x = q)).
Qed.

Lemma stat_add_entry_new (p : Path) (st : stat_result) (fs : FS) :
  p ∉ fs.*1 → stat (add_entry p st fs) p = Return st.
Proof.
  unfold add_entry. induction fs as [|[x r] fs IH]; simpl; intros Hnin.
  - by rewrite decide_True.
  - rewrite decide_False.
    + apply IH. intros ?. apply Hnin. by right.
    + intros ->. apply Hnin. by left.
Qed.

(** A snapshot of a listing that gained an entry the walk yields. *)
Lemma snapshot_add_entry_watched (root : Path) (fs : FS) (p : Path)
    (st : stat_result) (m : Snapshot) :
  _snapshot_mtimes root fs = Return m →
  rglob_match root p = true →
  p ∉ fs.*1 →
  _snapshot_mtimes root (add_entry p st fs) = Return (<[p := st_mtime st]> m).
Proof.
  intros [Hall Hlook]%snapshot_Return Hp Hnew. apply snapshot_Return. split.
  - intros q [Hq Hmatch]%elem_of_iter_python_files.
    apply elem_of_add_entry_paths in Hq.
    destruct (decide (q = p)) as [->|Hne].
    + rewrite stat_add_entry_new by done. eauto.
    + rewrite stat_add_entry_ne by done. apply Hall.
      apply elem_of_iter_python_files.
      destruct Hq as [?|?]; done.
  - intros q. destruct (decide (q = p)) as [->|Hne].
    + rewrite lookup_insert_eq. rewrite decide_True.
      * unfold mtime_of. by rewrite stat_add_entry_new.
      * apply elem_of_iter_python_files. split; [|done].
        apply elem_of_add_entry_paths. by right.
    + rewrite lookup_insert_ne, Hlook by done. unfold mtime_of.
      rewrite stat_add_entry_ne by done.
      destruct (decide (q ∈ _iter_python_files root fs)) as [Hq|Hq].
      * rewrite decide_True; [done|].
        apply elem_of_iter_python_files in Hq as [? ?].
        apply elem_of_iter_python_files. split; [|done].
        apply elem_of_add_entry_paths. by left.
      * rewrite decide_False; [done|].
        intros [Hq' ?]%elem_of_iter_python_files. apply Hq.
        apply elem_of_iter_python_files. split; [|done].
        apply elem_of_add_entry_paths in Hq' as [?|?]; done.
Qed.

(** A snapshot of a listing that gained an entry the walk does not
    yield. *)
Lemma snapshot_add_entry_unwatched (root : Path) (fs : FS) (q : Path)
    (st : stat_result) (m : Snapshot) :
  _snapshot_mtimes root fs = Return m →
  rglob_match root q = false →
  _snapshot_mtimes root (add_entry q st fs) = Return m.
Proof.
  intros [Hall Hlook]%snapshot_Return Hq. apply snapshot_Return.
  assert (∀ x, x ∈ _iter_python_files root (add_entry q st fs)
               ↔ x ∈ _iter_python_files root fs) as Hiter.
  { intros x. rewrite !elem_of_iter_python_files, elem_of_add_entry_paths.
    split; [|tauto]. intros [[?| ->] ?]; [done|congruence]. }
  assert (∀ x, x ∈ _iter_python_files root fs → x ≠ q) as Hne.
  { intros x [_ Hx]%elem_of_iter_python_files ->. congruence. }
  split.
  - intros x Hx%Hiter. rewrite stat_add_entry_ne by auto. auto.
  - intros x. rewrite Hlook.
    destruct (decide (x ∈ _iter_python_files root fs)) as [Hx|Hx].
    + rewrite decide_True by by apply Hiter.
      unfold mtime_of. by rewrite stat_add_entry_ne by auto.
    + rewrite decide_False; [done|]. by rewrite Hiter.
Qed.

(** X10.  Creating a watched file in a tree whose snapshot is [m]: a new
    entry comes and the directory that holds it is modified.  The next
    snapshot is [m] with the file added (and with the new time of that
    directory, when the walk yields the directory), which differs from
    [m].  Creating a file the walk does not yield, in a directory the walk
    does not yield, leaves the next snapshot equal to [m]. *)
Theorem snapshot_detects_creation (root : Path) (fs : FS) (p : Path)
    (st : stat_result) (t : Z) (m : Snapshot) :
  _snapshot_mtimes root fs = Return m →
  rglob_match root p = true →
  p ∉ fs.*1 →
  _snapshot_mtimes root (creat p st t fs)
  = Return (<[p := st_mtime st]>
              (if decide (parent p ∈ _iter_python_files root fs)
               then <[parent p := t]> m else m))
  ∧ <[p := st_mtime st]>
      (if decide (parent p ∈ _iter_python_files root fs)
       then <[parent p := t]> m else m) ≠ m
  ∧ (∀ (q : Path) (st' : stat_result) (t' : Z),
       rglob_match root q = false →
       rglob_match root (parent q) = false →
       _snapshot_mtimes root (creat q st' t' fs) = Return m).
Proof.
  intros Hm Hp Hnew. split; [|split].
  - unfold creat. apply snapshot_add_entry_watched; [|done|].
    + by apply snapshot_set_mtime.
    + by rewrite set_mtime_paths.
  - intros Heq. apply snapshot_Return in Hm as [_ Hlook].
    pose proof (Hlook p) as Hlp.
    rewrite <- Heq, lookup_insert_eq, decide_False in Hlp; [done|].
    by intros [? _]%elem_of_iter_python_files.
  - intros q st' t' Hq Hdir. unfold creat.
    apply snapshot_add_entry_unwatched; [|done].
    rewrite (snapshot_set_mtime root _ t' fs m Hm), decide_False; [done|].
    intros [_ ?]%elem_of_iter_python_files. congruence.
Qed.

Lemma snapshot_detects_creation_witness :
  _snapshot_mtimes Demo.proj
    (creat ["srv"; "proj"; "new.py"] {| st_mtime := 7 |} 7 Demo.tree)
  = Return (<[["srv"; "proj"; "new.py"] := 7%Z]>
              (if decide (parent ["srv"; "proj"; "new.py"]
                          ∈ _iter_python_files Demo.proj Demo.tree)
               then <[parent ["srv"; "proj"; "new.py"] := 7%Z]> DemoRun.snapshot0
               else DemoRun.snapshot0))
  ∧ <[["srv"; "proj"; "new.py"] := 7%Z]>
      (if decide (parent ["srv"; "proj"; "new.py"]
                  ∈ _iter_python_files Demo.proj Demo.tree)
       then <[parent ["srv"; "proj"; "new.py"] := 7%Z]> DemoRun.snapshot0
       else DemoRun.snapshot0) ≠ DemoRun.snapshot0
  ∧ (∀ (q : Path) (st' : stat_result) (t' : Z),
       rglob_match Demo.proj q = false →
       rglob_match Demo.proj (parent q) = false →
       _snapshot_mtimes Demo.proj (creat q st' t' Demo.tree)
         = Return DemoRun.snapshot0).
Proof.
  refine (snapshot_detects_creation Demo.proj Demo.tree
            ["srv"; "proj"; "new.py"] {| st_mtime := 7 |} 7
            DemoRun.snapshot0 _ _ _).
  - reflexivity.
  - reflexivity.
  - refine (bool_decide_unpack (["srv"; "proj"; "new.py"] ∉ Demo.tree.*1) _).
    vm_compute. exact I.
Defined.

(** ** Iterations of the loop (lines 106-126) *)

Lemma after_after (tr tr' : list Event) (o : option (list Event * Sup)) :
  after tr (after tr' o) = after (tr ++ tr') o.
Proof. destruct o as [[tr'' s]|]; simpl; [by rewrite app_assoc | done]. Qed.

Lemma after_nil (o : option (list Event * Sup)) : after [] o = o.
Proof. by destruct o as [[tr s]|]. Qed.

Lemma signals_app (tr tr' : list Event) :
  signals (tr ++ tr') = (signals tr ++ signals tr')%list.
Proof.
  induction tr as [|[a r] tr IH]; simpl; [done|].
  destruct a; simpl; by rewrite ?IH.
Qed.

Lemma run_quiet (h : Host) (v : Locals) (proc : Pid) (fs : FS) (n : nat)
    (rest : list Reply) :
  _snapshot_mtimes (package_root v) fs = Return (mtimes v) →
  run h (Polling v proc) (quiet n fs ++ rest)
  = after (quiet_events n (package_root v) proc fs)
      (run h (Polling v proc) rest).
Proof.
  intros Hsnap. induction n as [|n IH]; cbn [quiet quiet_events app].
  - by rewrite after_nil.
  - rewrite <- !app_comm_cons.
    rewrite (run_cons h (Polling v proc) (Poll proc) _ (Sleeping v proc)) by done.
    rewrite (run_cons h (Sleeping v proc) (Sleep 1) _ (Scanning v proc)) by done.
    rewrite (run_cons h (Scanning v proc) (Scan (package_root v)) _
               (Polling v proc)).
    + rewrite IH, !after_after. done.
    + done.
    + simpl. rewrite Hsnap. simpl. by rewrite decide_False by auto.
Qed.

Lemma quiet_events_silent (n : nat) (root : Path) (proc : Pid) (fs : FS) :
  signals (quiet_events n root proc fs) = []
  ∧ spawns (quiet_events n root proc fs) = [].
Proof. induction n as [|n [IH1 IH2]]; simpl; auto. Qed.

(** X11.  While the child is alive and the scans find the baseline again,
    the supervisor keeps polling: after any number of such iterations it
    is at the poll with the same baseline and the same child, and it has
    sent no signal and started no child. *)
Theorem unchanged_tree_never_restarts (h : Host) (v : Locals) (proc : Pid)
    (fs : FS) (n : nat) (rest : list Reply) :
  _snapshot_mtimes (package_root v) fs = Return (mtimes v) →
  run h (Polling v proc) (quiet n fs ++ rest)
  = after (quiet_events n (package_root v) proc fs)
      (run h (Polling v proc) rest)
  ∧ signals (quiet_events n (package_root v) proc fs) = []
  ∧ spawns (quiet_events n (package_root v) proc fs) = [].
Proof.
  intros Hsnap. split; [by apply run_quiet | apply quiet_events_silent].
Qed.

Lemma unchanged_tree_never_restarts_witness :
  run Demo.host (Polling DemoRun.locals0 1) (quiet 3 Demo.tree ++ [Polled (Some 0%Z)])
  = after (quiet_events 3 (package_root DemoRun.locals0) 1 Demo.tree)
      (run Demo.host (Polling DemoRun.locals0 1) [Polled (Some 0%Z)])
  ∧ signals (quiet_events 3 (package_root DemoRun.locals0) 1 Demo.tree) = []
  ∧ spawns (quiet_events 3 (package_root DemoRun.locals0) 1 Demo.tree) = [].
Proof.
  refine (unchanged_tree_never_restarts Demo.host DemoRun.locals0 1 Demo.tree
            3 [Polled (Some 0%Z)] _).
  reflexivity.
Defined.



(** ** Failures of the supervisor (lines 83-103 and 127-134) *)

(** X13.  In reload mode, when the watch root cannot be resolved or the
    initial snapshot fails, [main] ends with that exception before any
    reply is read: no child is started. *)
Theorem reloader_aborts_before_spawn (h : Host) (args : Args) (fs0 : FS)
    (script : list Reply) (st : Interp) (e : Exn) :
  environ h !! _CHILD_ENV_VAR ≠ Some "1" →
  reload args = true →
  no_reload args = false →
  (∃ st', _resolve_app_directory h (app args) st = (Raise e, st'))
  ∨ (∃ root st', _resolve_app_directory h (app args) st = (Return root, st')
                 ∧ _snapshot_mtimes root fs0 = Raise e) →
  ∃ ex, main h args fs0 script st = Some ex
  ∧ ending ex = Dies e
  ∧ events ex = [].
Proof.
  intros Henv Hreload Hno Hfail. unfold main.
  rewrite decide_False, Hreload, Hno by done. simpl.
  unfold _run_with_reloader.
  destruct Hfail as [[st' ->]|(root & st' & -> & ->)]; by eexists.
Qed.

Lemma reloader_aborts_before_spawn_witness :
  ∃ ex, main Demo.host
          {| reload := true; no_reload := false; app := Some "nosuch:run" |}
          Demo.tree [Spawned 1] Demo.interp = Some ex
  ∧ ending ex = Dies (ImportError "No module named 'nosuch'")
  ∧ events ex = [].
Proof.
  refine (reloader_aborts_before_spawn Demo.host
            {| reload := true; no_reload := false; app := Some "nosuch:run" |}
            Demo.tree [Spawned 1] Demo.interp
            (ImportError "No module named 'nosuch'") _ _ _ _).
  - vm_compute. discriminate.
  - reflexivity.
  - reflexivity.
  - left. eexists. reflexivity.
Defined.

(** X14.  [Popen] is outside the [try]: when it raises, whatever the
    exception (an interrupt included), the supervisor ends with it. *)
Theorem spawn_failure_ends_supervisor (h : Host) (args : Args) (fs0 : FS)
    (script rest : list Reply) (st st' : Interp) (tr : list Event)
    (v : Locals) (e : Exn) :
  main h args fs0 script st
    = Some {| events := tr; ending := Running (Spawning v); final := st' |} →
  main h args fs0 (script ++ Failed e :: rest) st
    = Some {| events := tr ++ [(Popen (child_cmd h (app_path v)) (child_env h),
                                Failed e)];
              ending := Dies e; final := st' |}.
Proof.
  intros Hmain. rewrite (main_extend _ _ _ _ _ _ _ _ _ Hmain).
  rewrite (run_cons h (Spawning v)
             (Popen (child_cmd h (app_path v)) (child_env h)) _
             (Uncaught e)) by done.
  by rewrite run_ended.
Qed.

Lemma spawn_failure_ends_supervisor_witness :
  main Demo.host Demo.args_reload Demo.tree
    ([] ++ Failed (OSError "[Errno 12] Cannot allocate memory") :: []) Demo.interp
  = Some {| events := [] ++ [(Popen (child_cmd Demo.host (app_path DemoRun.locals0))
                                (child_env Demo.host),
                              Failed (OSError "[Errno 12] Cannot allocate memory"))];
            ending := Dies (OSError "[Errno 12] Cannot allocate memory");
            final := DemoRun.interp1 |}.
Proof.
  refine (spawn_failure_ends_supervisor Demo.host Demo.args_reload Demo.tree
            [] [] Demo.interp DemoRun.interp1 [] DemoRun.locals0
            (OSError "[Errno 12] Cannot allocate memory") _).
  reflexivity.
Defined.

(** X15.  When a scan of the loop fails (a watched file cannot be
    examined), the exception is not an interrupt and no handler takes it:
    the supervisor ends with it, having sent no signal to the child and
    not having waited for it. *)
Theorem scan_failure_orphans_child (h : Host) (args : Args) (fs0 fs : FS)
    (script rest : list Reply) (st st' : Interp) (tr : list Event)
    (v : Locals) (proc : Pid) (e : Exn) :
  main h args fs0 script st
    = Some {| events := tr; ending := Running (Scanning v proc); final := st' |} →
  _snapshot_mtimes (package_root v) fs = Raise e →
  e ≠ KeyboardInterrupt →
  main h args fs0 (script ++ Tree fs :: rest) st
    = Some {| events := tr ++ [(Scan (package_root v), Tree fs)];
              ending := Dies e; final := st' |}
  ∧ signals (tr ++ [(Scan (package_root v), Tree fs)]) = signals tr
  ∧ unreaped (tr ++ [(Scan (package_root v), Tree fs)]) = unreaped tr.
Proof.
  intros Hmain Hsnap He. split; [|split].
  - rewrite (main_extend _ _ _ _ _ _ _ _ _ Hmain).
    rewrite (run_cons h (Scanning v proc) (Scan (package_root v)) _
               (Uncaught e)); [by rewrite run_ended|done|].
    simpl. rewrite Hsnap. simpl. by destruct e.
  - rewrite signals_app. simpl. by rewrite app_nil_r.
  - unfold unreaped. by rewrite unreaped_from_app.
Qed.

Lemma scan_failure_orphans_child_witness :
  main Demo.host Demo.args_reload Demo.tree
    ([Spawned 1; Polled None; Slept] ++ Tree locked_tree :: []) Demo.interp
  = Some {| events := [(DemoRun.popen, Spawned 1); (Poll 1, Polled None);
                       (Sleep 1, Slept)]
                      ++ [(Scan (package_root DemoRun.locals0), Tree locked_tree)];
            ending := Dies (OSError "[Errno 13] Permission denied");
            final := DemoRun.interp1 |}
  ∧ signals ([(DemoRun.popen, Spawned 1); (Poll 1, Polled None); (Sleep 1, Slept)]
             ++ [(Scan (package_root DemoRun.locals0), Tree locked_tree)])
    = signals [(DemoRun.popen, Spawned 1); (Poll 1, Polled None); (Sleep 1, Slept)]
  ∧ unreaped ([(DemoRun.popen, Spawned 1); (Poll 1, Polled None); (Sleep 1, Slept)]
              ++ [(Scan (package_root DemoRun.locals0), Tree locked_tree)])
    = unreaped [(DemoRun.popen, Spawned 1); (Poll 1, Polled None); (Sleep 1, Slept)].
Proof.
  refine (scan_failure_orphans_child Demo.host Demo.args_reload Demo.tree
            locked_tree [Spawned 1; Polled None; Slept] [] Demo.interp
            DemoRun.interp1
            [(DemoRun.popen, Spawned 1); (Poll 1, Polled None); (Sleep 1, Slept)]
            DemoRun.locals0 1 (OSError "[Errno 13] Permission denied") _ _ _).
  - reflexivity.
  - reflexivity.
  - discriminate.
Defined.

(** X16.  The handler of line 127 is not protected: a second interrupt
    that arrives while it waits for the child ends the supervisor with
    [KeyboardInterrupt] instead of status 0, and the child is not
    killed. *)
Theorem second_interrupt_escapes (h : Host) (args : Args) (fs0 : FS)
    (script rest : list Reply) (st st' : Interp) (tr : list Event)
    (s : Sup) (proc : Pid) :
  main h args fs0 script st
    = Some {| events := tr; ending := Running s; final := st' |} →
  watching s = Some proc →
  ∃ a, pending h s = Some a
  ∧ main h args fs0
      (script ++ Failed KeyboardInterrupt :: Signalled
              :: Failed KeyboardInterrupt :: rest) st
    = Some {| events := tr ++ [(a, Failed KeyboardInterrupt);
                               (Terminate proc, Signalled);
                               (Wait proc 5, Failed KeyboardInterrupt)];
              ending := Dies KeyboardInterrupt; final := st' |}.
Proof.
  intros Hmain Hs.
  assert (∃ a, pending h s = Some a
               ∧ step s (Failed KeyboardInterrupt) = Some (Stop_terminate proc))
    as (a & Hp & Hstep).
  { destruct s; simpl in Hs; try discriminate; injection Hs as ->;
      eexists; split; reflexivity. }
  exists a. split; [done|].
  rewrite (main_extend _ _ _ _ _ _ _ _ _ Hmain).
  rewrite (run_cons h _ _ _ _ _ Hp Hstep).
  rewrite (run_cons h _ (Terminate proc) _ (Stop_wait proc)) by done.
  rewrite (run_cons h _ (Wait proc 5) _ (Uncaught KeyboardInterrupt)) by done.
  by rewrite run_ended.
Qed.

Lemma second_interrupt_escapes_witness :
  ∃ a, pending Demo.host (Sleeping DemoRun.locals0 1) = Some a
  ∧ main Demo.host Demo.args_reload Demo.tree
      ([Spawned 1; Polled None]
         ++ Failed KeyboardInterrupt :: Signalled
         :: Failed KeyboardInterrupt :: []) Demo.interp
    = Some {| events := [(DemoRun.popen, Spawned 1); (Poll 1, Polled None)]
                          ++ [(a, Failed KeyboardInterrupt);
                              (Terminate 1, Signalled);
                              (Wait 1 5, Failed KeyboardInterrupt)];
              ending := Dies KeyboardInterrupt; final := DemoRun.interp1 |}.
Proof.
  refine (second_interrupt_escapes Demo.host Demo.args_reload Demo.tree
            [Spawned 1; Polled None] [] Demo.interp DemoRun.interp1
            [(DemoRun.popen, Spawned 1); (Poll 1, Polled None)]
            (Sleeping DemoRun.locals0 1) 1 _ _).
  - reflexivity.
  - reflexivity.
Defined.

(** X17.  An interrupt that arrives during a restart (while the old child
    is being terminated, waited for or killed) is taken by the same
    handler: the child is terminated again and waited for, killed if the
    wait times out, no new child is started, and the supervisor exits
    with status 0. *)
Theorem interrupt_during_restart (h : Host) (args : Args) (fs0 : FS)
    (script rest : list Reply) (st st' : Interp) (tr : list Event)
    (s : Sup) (proc : Pid) :
  main h args fs0 script st
    = Some {| events := tr; ending := Running s; final := st' |} →
  restarting s = Some proc →
  ∃ a, pending h s = Some a
  ∧ (∀ rc,
       main h args fs0
         (script ++ Failed KeyboardInterrupt :: Signalled :: Exited rc :: rest) st
       = Some {| events := tr ++ [(a, Failed KeyboardInterrupt);
                                  (Terminate proc, Signalled);
                                  (Wait proc 5, Exited rc)];
                 ending := Exit 0; final := st' |})
  ∧ main h args fs0
      (script ++ Failed KeyboardInterrupt :: Signalled :: TimeoutExpired
              :: Signalled :: rest) st
    = Some {| events := tr ++ [(a, Failed KeyboardInterrupt);
                               (Terminate proc, Signalled);
                               (Wait proc 5, TimeoutExpired);
                               (Kill proc, Signalled)];
              ending := Exit 0; final := st' |}.
Proof.
  intros Hmain Hs.
  assert (∃ a, pending h s = Some a
               ∧ step s (Failed KeyboardInterrupt) = Some (Stop_terminate proc))
    as (a & Hp & Hstep).
  { destruct s; simpl in Hs; try discriminate; injection Hs as ->;
      eexists; split; reflexivity. }
  exists a. split; [done|]. split.
  - intros rc. rewrite (main_extend _ _ _ _ _ _ _ _ _ Hmain).
    rewrite (run_cons h _ _ _ _ _ Hp Hstep).
    rewrite (run_cons h _ (Terminate proc) _ (Stop_wait proc)) by done.
    rewrite (run_cons h _ (Wait proc 5) _ (Returned 0)) by done.
    by rewrite run_ended.
  - rewrite (main_extend _ _ _ _ _ _ _ _ _ Hmain).
    rewrite (run_cons h _ _ _ _ _ Hp Hstep).
    rewrite (run_cons h _ (Terminate proc) _ (Stop_wait proc)) by done.
    rewrite (run_cons h _ (Wait proc 5) _ (Stop_kill proc)) by done.
    rewrite (run_cons h _ (Kill proc) _ (Returned 0)) by done.
    by rewrite run_ended.
Qed.

Lemma interrupt_during_restart_witness :
  ∃ a, pending Demo.host (Restart_wait DemoRun.locals1 1) = Some a
  ∧ (∀ rc,
       main Demo.host Demo.args_reload Demo.tree
         ([Spawned 1; Polled None; Slept; Tree DemoRun.tree1; Signalled]
            ++ Failed KeyboardInterrupt :: Signalled :: Exited rc :: []) Demo.interp
       = Some {| events := [(DemoRun.popen, Spawned 1); (Poll 1, Polled None);
                            (Sleep 1, Slept); (Scan Demo.proj, Tree DemoRun.tree1);
                            (Terminate 1, Signalled)]
                             ++ [(a, Failed KeyboardInterrupt);
                                 (Terminate 1, Signalled);
                                 (Wait 1 5, Exited rc)];
                 ending := Exit 0; final := DemoRun.interp1 |})
  ∧ main Demo.host Demo.args_reload Demo.tree
      ([Spawned 1; Polled None; Slept; Tree DemoRun.tree1; Signalled]
         ++ Failed KeyboardInterrupt :: Signalled :: TimeoutExpired
         :: Signalled :: []) Demo.interp
    = Some {| events := [(DemoRun.popen, Spawned 1); (Poll 1, Polled None);
                         (Sleep 1, Slept); (Scan Demo.proj, Tree DemoRun.tree1);
                         (Terminate 1, Signalled)]
                          ++ [(a, Failed KeyboardInterrupt);
                              (Terminate 1, Signalled);
                              (Wait 1 5, TimeoutExpired);
                              (Kill 1, Signalled)];
              ending := Exit 0; final := DemoRun.interp1 |}.
Proof.
  refine (interrupt_during_restart Demo.host Demo.args_reload Demo.tree
            [Spawned 1; Polled None; Slept; Tree DemoRun.tree1; Signalled] []
            Demo.interp DemoRun.interp1
            [(DemoRun.popen, Spawned 1); (Poll 1, Polled None);
             (Sleep 1, Slept); (Scan Demo.proj, Tree DemoRun.tree1);
             (Terminate 1, Signalled)]
            (Restart_wait DemoRun.locals1 1) 1 _ _).
  - reflexivity.
  - reflexivity.
Defined.

Lemma spawned_child_is_runner_witness :
  child_env Demo.host !! "PATH" = environ Demo.host !! "PATH".
Proof.
  refine (proj1 (proj2 (spawned_child_is_runner Demo.host Demo.args_reload
                          Demo.tree [] Demo.interp)) "PATH" _).
  discriminate.
Defined.

Lemma iter_python_files_spec_witness :
  Demo.util_py ∈ _iter_python_files Demo.proj Demo.tree.
Proof.
  refine (proj2 (iter_python_files_spec Demo.proj Demo.tree Demo.util_py) _).
  split.
  - refine (bool_decide_unpack (Demo.util_py ∈ Demo.tree.*1) _).
    vm_compute. exact I.
  - exists ["pkg"], "util". reflexivity.
Defined.

(** ** The second command: myserver *)

Lemma run_step (h : Host) (s : Sup) (r : Reply) (script : list Reply) :
  run h s (r :: script) =
    match pending h s with
    | None => Some ([], s)
    | Some a =>
        match step s r with
        | None => None
        | Some s' =>
            match run h s' script with
            | Some (tr, s'') => Some ((a, r) :: tr, s'')
            | None => None
            end
        end
    end.
Proof. reflexivity. Qed.

Lemma myserver_run_step (h : Host) (s : Sup) (r : Reply) (script : list Reply) :
  Myserver.run h s (r :: script) =
    match Myserver.pending h s with
    | None => Some ([], s)
    | Some a =>
        match Myserver.step s r with
        | None => None
        | Some s' =>
            match Myserver.run h s' script with
            | Some (tr, s'') => Some ((a, r) :: tr, s'')
            | None => None
            end
        end
    end.
Proof. reflexivity. Qed.

Lemma myserver_pending (h : Host) (s : Sup) (r : Reply) :
  Myserver.pending h s =
    match pending h s with
    | Some a => Some (Myserver.retag h (a, r)).1
    | None => None
    end.
Proof. by destruct s. Qed.

Lemma retag_reply (h : Host) (a : Action) (r : Reply) :
  Myserver.retag h (a, r) = ((Myserver.retag h (a, r)).1, r).
Proof. by destruct a. Qed.

(** The transitions of lines 53-84 of myserver/cli.py are those of lines
    103-134 of anacostia/cli.py. *)
Lemma myserver_step (s : Sup) (r : Reply) : Myserver.step s r = step s r.
Proof.
  destruct s, r; try reflexivity.
Qed.

(** X18.  The loop of myserver is the loop of anacostia: against every
    script and from every control point it makes the same calls, gets to
    the same control point and accepts the same replies; the only
    difference is the command and the environment of [Popen]. *)
Theorem myserver_loop_is_the_same (h : Host) (s : Sup) (script : list Reply) :
  Myserver.run h s script =
    match run h s script with
    | Some (tr, s') => Some (Myserver.retag h <$> tr, s')
    | None => None
    end.
Proof.
  revert s. induction script as [|r script IH]; intros s.
  - by destruct s.
  - rewrite run_step, myserver_run_step, (myserver_pending h s r),
      myserver_step.
    destruct (pending h s) as [a|]; [|done].
    destruct (step s r) as [s1|]; [|done].
    rewrite IH. destruct (run h s1 script) as [[tr s2]|]; [|done].
    simpl. by rewrite <- retag_reply.
Qed.

Lemma app_run_slept (n : nat) :
  Myserver.app_run (replicate n Slept)
    = Some (replicate n (Sleep 2, Slept), None).
Proof. induction n as [|n IH]; simpl; [done | by rewrite IH]. Qed.

Lemma app_run_failed (n : nat) (e : Exn) (rest : list Reply) :
  Myserver.app_run (replicate n Slept ++ Failed e :: rest)
    = Some ((replicate n (Sleep 2, Slept) ++ [(Sleep 2, Failed e)])%list,
            Some match e with
                 | KeyboardInterrupt => Return tt
                 | _ => Raise e
                 end).
Proof.
  induction n as [|n IH]; simpl; [by destruct e | by rewrite IH].
Qed.

(** X19.  [run] of myserver/app.py never returns on its own: after any
    number of completed sleeps it is still in its loop.  An interrupt
    during a sleep makes it return normally; any other exception of the
    sleep leaves it. *)
Theorem app_run_until_interrupt (n : nat) (rest : list Reply) :
  Myserver.app_run (replicate n Slept)
    = Some (replicate n (Sleep 2, Slept), None)
  ∧ Myserver.app_run (replicate n Slept ++ Failed KeyboardInterrupt :: rest)
    = Some ((replicate n (Sleep 2, Slept)
             ++ [(Sleep 2, Failed KeyboardInterrupt)])%list, Some (Return tt))
  ∧ (∀ e, e ≠ KeyboardInterrupt →
       Myserver.app_run (replicate n Slept ++ Failed e :: rest)
       = Some ((replicate n (Sleep 2, Slept) ++ [(Sleep 2, Failed e)])%list,
               Some (Raise e))).
Proof.
  split; [apply app_run_slept|]. split; [apply app_run_failed|].
  intros e He. rewrite app_run_failed. by destruct e.
Qed.

Lemma app_run_until_interrupt_witness :
  Myserver.app_run (replicate 2 Slept ++ Failed (OSError "EINTR") :: [])
  = Some ((replicate 2 (Sleep 2, Slept)
           ++ [(Sleep 2, Failed (OSError "EINTR"))])%list,
          Some (Raise (OSError "EINTR"))).
Proof.
  refine (proj2 (proj2 (app_run_until_interrupt 2 [])) (OSError "EINTR") _).
  discriminate.
Defined.

(** X20.  The runner of myserver: a process that carries the marker
    imports [run] from the application module and invokes it once; when
    [run] is interrupted during one of its sleeps the process ends
    normally, with status 0. *)
Theorem myserver_runner_interrupted (h : Host) (file : Path) (args : Args)
    (fs0 : FS) (script : list Reply) (st st' : Interp) (m : Module)
    (n : nat) (rest : list Reply) :
  environ h !! Myserver._CHILD_ENV_VAR = Some "1" →
  import_module h "myserver.app" st = (Return m, st') →
  mod_attrs m !! "run"
    = Some (Myserver.run_obj (replicate n Slept
                              ++ Failed KeyboardInterrupt :: rest)) →
  Myserver.main h file args fs0 script st
  = Some {| events := [];
            ending := Exit 0;
            final := {| sys_path := sys_path st'; sys_modules := sys_modules st';
                        calls := calls st'
                          ++ [Myserver.run_obj
                                (replicate n Slept
                                 ++ Failed KeyboardInterrupt :: rest)] |} |}.
Proof.
  intros Henv Himp Hrun.
  assert (obj_call (Myserver.run_obj
                      (replicate n Slept ++ Failed KeyboardInterrupt :: rest))
          = Return tt) as Hcall.
  { unfold Myserver.run_obj. simpl. by rewrite app_run_failed. }
  remember (Myserver.run_obj
              (replicate n Slept ++ Failed KeyboardInterrupt :: rest)) as target.
  unfold Myserver.main. rewrite decide_True by done.
  unfold Myserver._run_app, finish, mbind, Py_bind, bind, lift, invoke.
  rewrite Himp. unfold Myserver.from_import. rewrite Hrun. simpl.
  by rewrite Hcall.
Qed.

Lemma myserver_runner_interrupted_witness :
  Myserver.main MyserverDemo.host MyserverDemo.cli_py
    {| reload := true; no_reload := false; app := None |}
    Demo.tree [] Demo.interp
  = Some {| events := [];
            ending := Exit 0;
            final := {| sys_path := sys_path MyserverDemo.interp1;
                        sys_modules := sys_modules MyserverDemo.interp1;
                        calls := calls MyserverDemo.interp1
                          ++ [Myserver.run_obj
                                (replicate 2 Slept
                                 ++ Failed KeyboardInterrupt :: [])] |} |}.
Proof.
  refine (myserver_runner_interrupted MyserverDemo.host MyserverDemo.cli_py
            {| reload := true; no_reload := false; app := None |}
            Demo.tree [] Demo.interp MyserverDemo.interp1
            MyserverDemo.app_module 2 [] _ _ _).
  - reflexivity.
  - reflexivity.
  - reflexivity.
Defined.

(** ** The watch root and the children, in general *)

(** X21.  When the working directory is known, the locator has a
    separator, the unit loads and has a file, [_resolve_app_directory]
    returns the directory that holds the resolved file of the unit. *)
Theorem resolve_app_directory_parent (h : Host) (s : string) (st st' : Interp)
    (cwd : Path) (module_name attr_name : string) (m : Module) (file : Path) :
  getcwd h = Return cwd →
  partition_sep ":" s = Some (module_name, attr_name) →
  import_module h module_name
    (if is_dir h cwd
     then {| sys_path := cwd :: sys_path st; sys_modules := sys_modules st;
             calls := calls st |}
     else st) = (Return m, st') →
  mod_file m = Some file →
  _resolve_app_directory h (Some s) st = (Return (removelast (resolve h file)), st').
Proof.
  intros Hcwd Hsplit Himp Hfile. py_unfold. rewrite Hcwd. simpl.
  destruct (is_dir h cwd); simpl; rewrite Hsplit; simpl; rewrite Himp; simpl;
    unfold inspect_getfile; by rewrite Hfile.
Qed.

Lemma resolve_app_directory_parent_witness :
  _resolve_app_directory Demo.host (Some "app:run") Demo.interp
  = (Return (removelast (resolve Demo.host Demo.app_py)), DemoRun.interp1).
Proof.
  refine (resolve_app_directory_parent Demo.host "app:run" Demo.interp
            DemoRun.interp1 Demo.proj "app" "run" Demo.app_module Demo.app_py
            _ _ _ _).
  - reflexivity.
  - reflexivity.
  - reflexivity.
  - reflexivity.
Defined.

(** X22.  On every run of the loop in which no wait for a child times
    out, the supervisor never has more than one child whose termination
    it has not observed: each child is polled or waited for to its end
    before the next one is started. *)
Theorem one_unreaped_child_without_timeout (h : Host) (v : Locals)
    (script : list Reply) (tr : list Event) (s : Sup) :
  run h (Spawning v) script = Some (tr, s) →
  TimeoutExpired ∉ script →
  (length (unreaped tr) ≤ 1)%nat.
Proof.
  intros Hrun Hno.
  pose proof (run_tidy h script _ _ _ [] Hrun Hno eq_refl) as Ht.
  fold (unreaped tr) in Ht.
  destruct s; simpl in Ht; try (rewrite Ht; simpl; lia); done.
Qed.

Lemma one_unreaped_child_without_timeout_witness :
  (length (unreaped [(DemoRun.popen, Spawned 1); (Poll 1, Polled None);
                     (Sleep 1, Slept); (Scan Demo.proj, Tree DemoRun.tree1);
                     (Terminate 1, Signalled); (Wait 1 5, Exited (-15));
                     (DemoRun.popen, Spawned 2)]) ≤ 1)%nat.
Proof.
  refine (one_unreaped_child_without_timeout Demo.host DemoRun.locals0
            [Spawned 1; Polled None; Slept; Tree DemoRun.tree1; Signalled;
             Exited (-15); Spawned 2] _ (Polling DemoRun.locals1 2) _ _).
  - reflexivity.
  - intros Hin.
    repeat (apply elem_of_cons in Hin as [Hin|Hin]; [discriminate|]).
    by apply elem_of_nil in Hin.
Defined.
